(** * google-reviews: the quota-guarded, cached API-access layer and the
      client retry orchestrator

    A shallow embedding of [src/lib/google.ts] (file cache, rate-limit
    lockout, [guardedFetch], the three resource fetchers), of the three API
    route handlers built on it, and of the countdown / auto-retry logic and
    the rating summary of the [Home] page component.

    Conventions of the embedding.
    - JavaScript strings are modelled by [string]: sequences of code units,
      restricted to the units below 256.
    - JavaScript numbers are modelled by [num]: the integers ([Date.now()]
      is integral, and so is everything the code adds to it) plus [NaN].
    - A file's text is identified with the JSON value it denotes
      ([JSON.parse (JSON.stringify j) = j]), or is malformed.
    - Server code runs in [M], a state-and-exception monad over [world]:
      the cache directory, the clock, the console, the upstream service and
      the list of network requests issued so far. *)

From Stdlib Require Import ZArith String Ascii List DecimalString.
From stdpp Require Import base option gmap strings list.

Set Warnings "-register-all".
Local Open Scope Z_scope.
Local Open Scope string_scope.

(** ** JavaScript values *)

Inductive json : Type :=
| JNull
| JBool (b : bool)
| JNum (z : Z)
| JStr (s : string)
| JArr (items : list json)
| JObj (fields : list (string * json)).

(** [unknown]: a JSON value or [undefined]. *)
Inductive value : Type :=
| Undefined
| Val (j : json).

Inductive num : Type :=
| NaN
| Fin (z : Z).

Definition null : value := Val JNull.

Inductive ioop : Type := OpRead | OpWrite | OpUnlink | OpMkdir.

Inductive exn : Type :=
| TypeError
| SyntaxError
| IoError (op : ioop) (path : string)
| ApiError (message : string) (statusCode : Z) (retryAfter : num)
| PlainError (message : string).

Inductive outcome (A : Type) : Type :=
| Ret (a : A)
| Throw (e : exn).
Arguments Ret {A} a.
Arguments Throw {A} e.

(** Own-property lookup in a parsed JSON object. *)
Fixpoint obj_get (fields : list (string * json)) (name : string) : value :=
  match fields with
  | [] => Undefined
  | (k, v) :: rest => if String.eqb k name then Val v else obj_get rest name
  end.

(** [v.name] for the property names the code reads ([expiry], [data],
    [error], [message]): a [TypeError] on [null] and [undefined], the own
    property on an object, [undefined] on every other JSON value. *)
Definition get_prop (v : value) (name : string) : outcome value :=
  match v with
  | Undefined => Throw TypeError
  | Val JNull => Throw TypeError
  | Val (JObj fields) => Ret (obj_get fields name)
  | Val _ => Ret Undefined
  end.

(** [v?.name] *)
Definition get_prop_opt (v : value) (name : string) : outcome value :=
  match v with
  | Undefined => Ret Undefined
  | Val JNull => Ret Undefined
  | _ => get_prop v name
  end.

Definition truthy (v : value) : bool :=
  match v with
  | Undefined => false
  | Val JNull => false
  | Val (JBool b) => b
  | Val (JNum z) => negb (Z.eqb z 0)
  | Val (JStr s) => negb (String.eqb s "")
  | Val (JArr _) => true
  | Val (JObj _) => true
  end.

(** [a || b] *)
Definition or_else (a b : value) : value := if truthy a then a else b.

Definition Z_to_string (z : Z) : string := NilZero.string_of_int (Z.to_int z).

Definition num_to_string (n : num) : string :=
  match n with
  | NaN => "NaN"
  | Fin z => Z_to_string z
  end.

(** [String(v)]: arrays are joined with commas, [null] elements printing as
    the empty string. *)
Fixpoint json_to_string (j : json) : string :=
  match j with
  | JNull => "null"
  | JBool true => "true"
  | JBool false => "false"
  | JNum z => Z_to_string z
  | JStr s => s
  | JArr items =>
      (fix join (l : list json) : string :=
         match l with
         | [] => ""
         | x :: rest =>
             let sx := match x with JNull => "" | _ => json_to_string x end in
             match rest with
             | [] => sx
             | _ => sx ++ "," ++ join rest
             end
         end) items
  | JObj _ => "[object Object]"
  end.

Definition ToString (v : value) : string :=
  match v with
  | Undefined => "undefined"
  | Val j => json_to_string j
  end.

(** Numeric comparison and arithmetic, [NaN] making every comparison false. *)
Definition num_gt (a b : num) : bool :=
  match a, b with
  | Fin x, Fin y => Z.ltb y x
  | _, _ => false
  end.

Definition num_le (a b : num) : bool :=
  match a, b with
  | Fin x, Fin y => Z.leb x y
  | _, _ => false
  end.

Definition num_sub (a b : num) : num :=
  match a, b with
  | Fin x, Fin y => Fin (x - y)
  | _, _ => NaN
  end.

(** [Math.ceil(n / 1000)] on an integral [n]. *)
Definition ceil_div_1000 (n : num) : num :=
  match n with
  | NaN => NaN
  | Fin z => Fin (- ((- z) / 1000))
  end.

(** ** Strings: the two [replace] calls *)

Definition in_range (lo hi c : ascii) : bool :=
  (Nat.leb (nat_of_ascii lo) (nat_of_ascii c) && Nat.leb (nat_of_ascii c) (nat_of_ascii hi))%bool.

(** The character class [[a-zA-Z0-9_-]]. *)
Definition safe_char (c : ascii) : bool :=
  (in_range "a" "z" c || in_range "A" "Z" c || in_range "0" "9" c
   || Ascii.eqb c "_" || Ascii.eqb c "-")%bool.

Fixpoint string_map (f : ascii -> ascii) (s : string) : string :=
  match s with
  | EmptyString => EmptyString
  | String c rest => String (f c) (string_map f rest)
  end.

(** [key.replace(/[^a-zA-Z0-9_-]/g, '_')] *)
Definition sanitize (key : string) : string :=
  string_map (fun c => if safe_char c then c else "_"%char) key.

(** [s.replace(/\//g, '_')] *)
Definition slash_to_underscore (s : string) : string :=
  string_map (fun c => if Ascii.eqb c "/" then "_"%char else c) s.

(** ** The world the server code runs in *)

(** A file's text: well-formed JSON, or not. *)
Inductive text : Type :=
| Malformed (raw : string)
| Json (j : json).

(** A request URL: the string handed to [fetch] or to [new URL], and the
    search parameters set on it afterwards, in order. *)
Record url : Type := Url { href : string; searchParams : list (string * string) }.

(** What the network returns for a request: a rejected [fetch], or a
    response with a status and a body ([None] when the body is not JSON). *)
Inductive reply : Type :=
| NetError
| Reply (status : Z) (body : option json).

Record Response : Type := mkResponse { res_status : Z; res_body : option json }.

Inductive logline : Type :=
| LogCacheHit (key : string)
| LogCacheSet (key : string) (ttlMs : Z)
| LogCacheWriteError (e : exn)
| LogLockout
| LogLockoutWriteError (e : exn)
| LogBlocked (remainingSeconds : num).

Record world : Type := mkWorld {
  files : gmap string text;          (* regular files, by path *)
  cache_dir : bool;                  (* does CACHE_DIR exist *)
  now : Z;                           (* Date.now() *)
  fault : ioop -> string -> bool;    (* storage operations that fail *)
  upstream : url -> string -> reply; (* the upstream service *)
  latency : Z;                       (* time a request takes *)
  sent : list (url * string);        (* requests issued, oldest first *)
  console : list logline             (* console output, oldest first *)
}.

Definition set_files (f : gmap string text) (w : world) : world :=
  mkWorld f (cache_dir w) (now w) (fault w) (upstream w) (latency w) (sent w) (console w).
Definition set_cache_dir (b : bool) (w : world) : world :=
  mkWorld (files w) b (now w) (fault w) (upstream w) (latency w) (sent w) (console w).
Definition set_now (t : Z) (w : world) : world :=
  mkWorld (files w) (cache_dir w) t (fault w) (upstream w) (latency w) (sent w) (console w).
Definition set_sent (l : list (url * string)) (w : world) : world :=
  mkWorld (files w) (cache_dir w) (now w) (fault w) (upstream w) (latency w) l (console w).
Definition set_console (l : list logline) (w : world) : world :=
  mkWorld (files w) (cache_dir w) (now w) (fault w) (upstream w) (latency w) (sent w) l.

(** Time passing between two calls: nothing but the clock moves. *)
Definition advance (d : Z) (w : world) : world := set_now (now w + d) w.

(** ** The monad *)

Definition M (A : Type) : Type := world -> outcome A * world.

Definition ret {A} (a : A) : M A := fun w => (Ret a, w).
Definition throw {A} (e : exn) : M A := fun w => (Throw e, w).
Definition bind {A B} (m : M A) (k : A -> M B) : M B :=
  fun w => match m w with
           | (Ret a, w') => k a w'
           | (Throw e, w') => (Throw e, w')
           end.
Definition lift {A} (o : outcome A) : M A := fun w => (o, w).

(** [try { body } catch (err) { handler }] *)
Definition try_catch {A} (body : M A) (handler : exn -> M A) : M A :=
  fun w => match body w with
           | (Ret a, w') => (Ret a, w')
           | (Throw e, w') => handler e w'
           end.

Notation "'let!' x ':=' m 'in' k" := (bind m (fun x => k))
  (at level 10, x name, m at level 100, k at level 200).
Notation "m ';;' k" := (bind m (fun _ => k))
  (at level 100, k at level 200, right associativity).

(** ** Runtime primitives: [fs], [Date], [console], [fetch] *)

Definition CACHE_DIR : string := ".next/cache/google-api".
Definition path_join (dir name : string) : string := dir ++ "/" ++ name.

Definition existsSync (p : string) : M bool :=
  fun w => (Ret (if String.eqb p CACHE_DIR then cache_dir w
                 else match files w !! p with Some _ => true | None => false end), w).

Definition mkdirSync (p : string) : M unit :=
  fun w => if fault w OpMkdir p then (Throw (IoError OpMkdir p), w)
           else (Ret tt, set_cache_dir true w).

Definition readFileSync (p : string) : M text :=
  fun w => if fault w OpRead p then (Throw (IoError OpRead p), w)
           else match files w !! p with
                | Some t => (Ret t, w)
                | None => (Throw (IoError OpRead p), w)
                end.

Definition writeFileSync (p : string) (t : text) : M unit :=
  fun w => if (fault w OpWrite p || negb (cache_dir w))%bool
           then (Throw (IoError OpWrite p), w)
           else (Ret tt, set_files (<[p := t]> (files w)) w).

Definition unlinkSync (p : string) : M unit :=
  fun w => if fault w OpUnlink p then (Throw (IoError OpUnlink p), w)
           else match files w !! p with
                | Some _ => (Ret tt, set_files (delete p (files w)) w)
                | None => (Throw (IoError OpUnlink p), w)
                end.

Definition JSON_parse (t : text) : M value :=
  match t with
  | Malformed _ => throw SyntaxError
  | Json j => ret (Val j)
  end.

Definition JSON_stringify (j : json) : text := Json j.

Definition Date_now : M Z := fun w => (Ret (now w), w).

Definition console_log (l : logline) : M unit :=
  fun w => (Ret tt, set_console (console w ++ [l]) w).

(** [await fetch(url, { headers: { Authorization: `Bearer ${token}` } })] *)
Definition fetch (u : url) (accessToken : string) : M Response :=
  fun w =>
    let w' := set_now (now w + latency w) (set_sent (sent w ++ [(u, accessToken)]) w) in
    match upstream w u accessToken with
    | NetError => (Throw TypeError, w')
    | Reply s b => (Ret (mkResponse s b), w')
    end.

(** [await res.json()] *)
Definition res_json (res : Response) : M value :=
  match res_body res with
  | Some j => ret (Val j)
  | None => throw SyntaxError
  end.

Definition res_ok (res : Response) : bool :=
  (Z.leb 200 (res_status res) && Z.leb (res_status res) 299)%bool.

(** ** src/app/page.tsx: the countdown and the pending retry *)

Module Home.

(** The retry closures handed to [handleQuotaError]: [loadAccounts],
    [() => loadLocations(accountId)] and
    [() => loadReviews(accountId, locationId, pageToken)], each with the
    parameters it captured. *)
Inductive action : Type :=
| loadAccounts
| loadLocations (accountId : string)
| loadReviews (accountId locationId : string) (pageToken : option string).

Inductive banner : Type :=
| RateLimitNotice          (* the auto-retry notice set by handleQuotaError *)
| Message (msg : string).

(** The component state the countdown touches, the browser's live interval
    timers, and the list of retry actions called so far. *)
Record state : Type := mkState {
  error : option banner;
  countdown : Z;
  pendingAction : option action;
  countdownRef : option nat;     (* countdownRef.current: an interval handle *)
  intervals : list nat;          (* live setInterval timers *)
  next_handle : nat;
  has_cleanup : bool;            (* the last effect run returned a cleanup *)
  invoked : list action          (* calls of a pending action, oldest first *)
}.

Definition initial : state := mkState None 0 None None [] 0 false [].

Definition set_error (e : option banner) (s : state) : state :=
  mkState e (countdown s) (pendingAction s) (countdownRef s) (intervals s)
          (next_handle s) (has_cleanup s) (invoked s).
Definition set_countdown (c : Z) (s : state) : state :=
  mkState (error s) c (pendingAction s) (countdownRef s) (intervals s)
          (next_handle s) (has_cleanup s) (invoked s).
Definition set_pendingAction (a : option action) (s : state) : state :=
  mkState (error s) (countdown s) a (countdownRef s) (intervals s)
          (next_handle s) (has_cleanup s) (invoked s).
Definition set_has_cleanup (b : bool) (s : state) : state :=
  mkState (error s) (countdown s) (pendingAction s) (countdownRef s) (intervals s)
          (next_handle s) b (invoked s).
Definition call (a : action) (s : state) : state :=
  mkState (error s) (countdown s) (pendingAction s) (countdownRef s) (intervals s)
          (next_handle s) (has_cleanup s) (invoked s ++ [a]).

(** [countdownRef.current = setInterval(...)] *)
Definition start_interval (s : state) : state :=
  mkState (error s) (countdown s) (pendingAction s) (Some (next_handle s))
          (next_handle s :: intervals s) (S (next_handle s)) (has_cleanup s) (invoked s).

(** [if (countdownRef.current) { clearInterval(countdownRef.current);
    countdownRef.current = null; }] *)
Definition stop_interval (s : state) : state :=
  match countdownRef s with
  | Some h =>
      mkState (error s) (countdown s) (pendingAction s) None
              (List.filter (fun h' => negb (Nat.eqb h' h)) (intervals s)) (next_handle s)
              (has_cleanup s) (invoked s)
  | None => s
  end.

(** The body of the countdown [useEffect]. *)
Definition countdown_effect (s : state) : state :=
  if Z.leb (countdown s) 0 then
    let s1 := stop_interval s in
    match pendingAction s with
    | Some act =>
        set_has_cleanup false (call act (set_error None (set_pendingAction None s1)))
    | None => set_has_cleanup false s1
    end
  else
    let s1 := match countdownRef s with
              | None => start_interval s
              | Some _ => s
              end in
    set_has_cleanup true s1.

(** The cleanup the effect returned, run before the effect runs again. *)
Definition countdown_cleanup (s : state) : state :=
  if has_cleanup s then set_has_cleanup false (stop_interval s) else s.

Definition run_effect (s : state) : state := countdown_effect (countdown_cleanup s).

(** A render after [countdown] or [pendingAction] changed: the effect runs,
    and runs once more if it reset [pendingAction] itself. *)
Definition render (s : state) : state :=
  let s1 := run_effect s in
  match pendingAction s, pendingAction s1 with
  | Some _, None => run_effect s1
  | _, _ => s1
  end.

Definition handleQuotaError (retryAfter : Z) (retryFn : action) (s : state) : state :=
  let waitSecs := Z.max retryAfter 60 in
  render (set_error (Some RateLimitNotice)
            (set_pendingAction (Some retryFn) (set_countdown waitSecs s))).

(** One second passes: every live interval calls
    [setCountdown((prev) => Math.max(0, prev - 1))]. *)
Definition tick (s : state) : state :=
  let c := Nat.iter (length (intervals s)) (fun prev => Z.max 0 (prev - 1)) (countdown s) in
  if Z.eqb c (countdown s) then s else render (set_countdown c s).

Definition ticks (n : nat) (s : state) : state := Nat.iter n tick s.

(** The 429 branch of a loader ([loadAccounts], [loadLocations],
    [loadReviews]): [handleQuotaError(data.retryAfter || 60, retry)], where
    [retry] repeats the call being made, [call], with the arguments it was
    made with. *)
Definition on429 (call : action) (retryAfter : option Z) (s : state) : state :=
  let hint := match retryAfter with
              | Some r => if Z.eqb r 0 then 60 else r
              | None => 60
              end in
  handleQuotaError hint call s.

(** The dismiss button: [setError(null); setCountdown(0); setPendingAction(null)]. *)
Definition dismiss (s : state) : state :=
  render (set_pendingAction None (set_countdown 0 (set_error None s))).

(** What can happen to the component, as far as the countdown goes. *)
Inductive event : Type :=
| QuotaReply (call : action) (retryAfter : option Z)   (* a loader received a 429 *)
| Tick                                                  (* a second passed *)
| Dismiss.                                              (* the user closed the banner *)

Definition step (s : state) (ev : event) : state :=
  match ev with
  | QuotaReply call retryAfter => on429 call retryAfter s
  | Tick => tick s
  | Dismiss => dismiss s
  end.

Definition run (evs : list event) (s : state) : state := fold_left step evs s.

Definition is_quota (ev : event) : bool :=
  match ev with
  | QuotaReply _ _ => true
  | _ => false
  end.

(** At most one interval is live, and it is the one the ref holds. *)
Definition single_timer (s : state) : Prop :=
  intervals s = match countdownRef s with Some h => [h] | None => [] end.

(** A countdown is running: positive, one timer, one stored action. *)
Definition counting (s : state) (c : Z) (act : action) : Prop :=
  countdown s = c /\ 0 < c /\ pendingAction s = Some act /\
  (exists h, countdownRef s = Some h /\ intervals s = [h]) /\ has_cleanup s = true.

End Home.

(** ** src/lib/google.ts *)

Section Google.

(** The runtime's string-to-number conversion and ISO date printing, which
    the code reaches only through a non-numeric [expiry] and through the
    diagnostic [setAt] field. *)
Variable StringToNumber : string -> num.
Variable toISOString : Z -> string.

Set Default Proof Using "Type".

(** [Number(v)] *)
Definition ToNumber (v : value) : num :=
  match v with
  | Undefined => NaN
  | Val JNull => Fin 0
  | Val (JBool true) => Fin 1
  | Val (JBool false) => Fin 0
  | Val (JNum z) => Fin z
  | Val (JStr s) => StringToNumber s
  | Val j => StringToNumber (ToString (Val j))
  end.

Definition CACHE_TTL : Z := 10 * 60 * 1000.
Definition LOCKOUT_TTL : Z := 60 * 1000.
Definition LOCKOUT_FILE : string := path_join CACHE_DIR "_rate_limit_lockout.json".

Definition ensureCacheDir : M unit :=
  let! ex := existsSync CACHE_DIR in
  if negb ex then mkdirSync CACHE_DIR else ret tt.

Definition getCacheFilePath (key : string) : string :=
  let safeKey := sanitize key in
  path_join CACHE_DIR (safeKey ++ ".json").

Definition getCached (key : string) : M value :=
  try_catch
    (let filePath := getCacheFilePath key in
     let! ex := existsSync filePath in
     if negb ex then ret null else
     let! raw := readFileSync filePath in
     let! entry := JSON_parse raw in
     let! t := Date_now in
     let! expiry := lift (get_prop entry "expiry") in
     if num_gt (Fin t) (ToNumber expiry) then
       unlinkSync filePath;;
       ret null
     else
       console_log (LogCacheHit key);;
       lift (get_prop entry "data"))
    (fun _ => ret null).

(** The object literal [{ data, expiry }] as [JSON.stringify] writes it: a
    property whose value is [undefined] is left out. *)
Definition cache_entry (data : value) (expiry : Z) : json :=
  JObj (match data with
        | Undefined => []
        | Val j => [("data", j)]
        end ++ [("expiry", JNum expiry)]).

Definition setCache (key : string) (data : value) (ttlMs : Z) : M unit :=
  try_catch
    (ensureCacheDir;;
     let filePath := getCacheFilePath key in
     let! t := Date_now in
     let entry := cache_entry data (t + ttlMs) in
     writeFileSync filePath (JSON_stringify entry);;
     console_log (LogCacheSet key ttlMs))
    (fun err => console_log (LogCacheWriteError err)).

Record lockout_status : Type :=
  mkLockout { locked : bool; remainingSeconds : num }.

Definition isLockedOut : M lockout_status :=
  try_catch
    (let! ex := existsSync LOCKOUT_FILE in
     if negb ex then ret (mkLockout false (Fin 0)) else
     let! raw := readFileSync LOCKOUT_FILE in
     let! lockout := JSON_parse raw in
     let! expiry := lift (get_prop lockout "expiry") in
     let! t := Date_now in
     let remaining := num_sub (ToNumber expiry) (Fin t) in
     if num_le remaining (Fin 0) then
       unlinkSync LOCKOUT_FILE;;
       ret (mkLockout false (Fin 0))
     else
       ret (mkLockout true (ceil_div_1000 remaining)))
    (fun _ => ret (mkLockout false (Fin 0))).

Definition lockout_entry (t : Z) : json :=
  JObj [("expiry", JNum (t + LOCKOUT_TTL)); ("setAt", JStr (toISOString t))].

Definition setLockout : M unit :=
  try_catch
    (ensureCacheDir;;
     let! t := Date_now in
     let entry := lockout_entry t in
     writeFileSync LOCKOUT_FILE (JSON_stringify entry);;
     console_log LogLockout)
    (fun err => console_log (LogLockoutWriteError err)).

Definition guardedFetch (u : url) (accessToken : string) : M Response :=
  let! lockout := isLockedOut in
  if locked lockout then
    console_log (LogBlocked (remainingSeconds lockout));;
    throw (ApiError
             ("Rate limit active. Please wait "
                ++ num_to_string (remainingSeconds lockout) ++ " seconds.")
             429
             (remainingSeconds lockout))
  else
    let! res := fetch u accessToken in
    if Z.eqb (res_status res) 429 then
      setLockout;;
      let retryAfter := ceil_div_1000 (Fin LOCKOUT_TTL) in
      let! body := try_catch (res_json res) (fun _ => ret (Val (JObj []))) in
      let! err := lift (get_prop body "error") in
      let! m := lift (get_prop_opt err "message") in
      let msg := or_else m (Val (JStr ("Rate limit exceeded. Please wait "
                                        ++ num_to_string retryAfter ++ " seconds."))) in
      throw (ApiError (ToString msg) 429 retryAfter)
    else
      ret res.

(** [throw new Error(error.error?.message || fallback)] *)
Definition throw_upstream_error {A} (error : value) (fallback : string) : M A :=
  let! err := lift (get_prop error "error") in
  let! m := lift (get_prop_opt err "message") in
  throw (PlainError (ToString (or_else m (Val (JStr fallback))))).

Definition fetchAccounts (accessToken : string) : M value :=
  let cacheKey := "accounts" in
  let! cached := getCached cacheKey in
  if truthy cached then ret cached else
  let! res := guardedFetch
                (Url "https://mybusinessaccountmanagement.googleapis.com/v1/accounts" [])
                accessToken in
  if negb (res_ok res) then
    let! error := res_json res in
    throw_upstream_error error "Failed to fetch accounts"
  else
    let! data := res_json res in
    setCache cacheKey data CACHE_TTL;;
    ret data.

Definition fetchLocations (accessToken accountId : string) : M value :=
  let cacheKey := "locations_" ++ slash_to_underscore accountId in
  let! cached := getCached cacheKey in
  if truthy cached then ret cached else
  let! res := guardedFetch
                (Url ("https://mybusinessbusinessinformation.googleapis.com/v1/"
                        ++ accountId
                        ++ "/locations?readMask=name,title,storefrontAddress,phoneNumbers,websiteUri,metadata")
                     [])
                accessToken in
  if negb (res_ok res) then
    let! error := res_json res in
    throw_upstream_error error "Failed to fetch locations"
  else
    let! data := res_json res in
    setCache cacheKey data CACHE_TTL;;
    ret data.

(** An optional string parameter is truthy when given and non-empty. *)
Definition given (pageToken : option string) : bool :=
  match pageToken with
  | Some s => negb (String.eqb s "")
  | None => false
  end.

Definition reviewsCacheKey (accountId locationId : string) (pageToken : option string) : string :=
  "reviews_" ++ slash_to_underscore accountId ++ "_" ++ slash_to_underscore locationId
    ++ "_" ++ (if given pageToken then default "" pageToken else "first").

Definition reviewsUrl (accountId locationId : string) (pageToken : option string) : url :=
  let base := "https://mybusiness.googleapis.com/v4/" ++ accountId ++ "/" ++ locationId ++ "/reviews" in
  Url base ((if given pageToken then [("pageToken", default "" pageToken)] else [])
              ++ [("pageSize", "50")]).

Definition fetchReviews (accessToken accountId locationId : string)
    (pageToken : option string) : M value :=
  let cacheKey := reviewsCacheKey accountId locationId pageToken in
  let! cached := getCached cacheKey in
  if truthy cached then ret cached else
  let u := reviewsUrl accountId locationId pageToken in
  let! res := guardedFetch u accessToken in
  if negb (res_ok res) then
    let! error := res_json res in
    throw_upstream_error error "Failed to fetch reviews"
  else
    let! data := res_json res in
    setCache cacheKey data CACHE_TTL;;
    ret data.

(** *** The fetchers, seen together

    The three fetchers have one shape; [cached_fetch] is that shape with the
    cache key, the request URL and the fallback error text as parameters,
    and [fetch_upstream] is the part after the cache lookup. A [resource]
    names one fetcher call with its resource parameters. *)

Definition fetch_upstream (cacheKey : string) (u : url) (fallback accessToken : string)
    : M value :=
  let! res := guardedFetch u accessToken in
  if negb (res_ok res) then
    let! error := res_json res in
    throw_upstream_error error fallback
  else
    let! data := res_json res in
    setCache cacheKey data CACHE_TTL;;
    ret data.

Definition cached_fetch (cacheKey : string) (u : url) (fallback accessToken : string)
    : M value :=
  let! cached := getCached cacheKey in
  if truthy cached then ret cached else fetch_upstream cacheKey u fallback accessToken.

Inductive resource : Type :=
| Accounts
| Locations (accountId : string)
| Reviews (accountId locationId : string) (pageToken : option string).

Definition cacheKey (r : resource) : string :=
  match r with
  | Accounts => "accounts"
  | Locations accountId => "locations_" ++ slash_to_underscore accountId
  | Reviews accountId locationId pageToken => reviewsCacheKey accountId locationId pageToken
  end.

Definition requestUrl (r : resource) : url :=
  match r with
  | Accounts => Url "https://mybusinessaccountmanagement.googleapis.com/v1/accounts" []
  | Locations accountId =>
      Url ("https://mybusinessbusinessinformation.googleapis.com/v1/"
             ++ accountId
             ++ "/locations?readMask=name,title,storefrontAddress,phoneNumbers,websiteUri,metadata")
          []
  | Reviews accountId locationId pageToken => reviewsUrl accountId locationId pageToken
  end.

Definition failureMessage (r : resource) : string :=
  match r with
  | Accounts => "Failed to fetch accounts"
  | Locations _ => "Failed to fetch locations"
  | Reviews _ _ _ => "Failed to fetch reviews"
  end.

Definition fetchResource (accessToken : string) (r : resource) : M value :=
  match r with
  | Accounts => fetchAccounts accessToken
  | Locations accountId => fetchLocations accessToken accountId
  | Reviews accountId locationId pageToken =>
      fetchReviews accessToken accountId locationId pageToken
  end.

(** The file a resource is cached in. *)
Definition storageKey (r : resource) : string := getCacheFilePath (cacheKey r).

(** Two calls name the same logical request: the same fetcher with the same
    ids, an absent cursor and an empty one both meaning the first page. *)
Definition cursor (pageToken : option string) : option string :=
  if given pageToken then pageToken else None.

Definition same_request (r1 r2 : resource) : Prop :=
  match r1, r2 with
  | Accounts, Accounts => True
  | Locations a1, Locations a2 => a1 = a2
  | Reviews a1 l1 p1, Reviews a2 l2 p2 => a1 = a2 /\ l1 = l2 /\ cursor p1 = cursor p2
  | _, _ => False
  end.


(** *** Well-shaped resource parameters

    Ids as the upstream issues them ([accounts/123], [locations/456]):
    letters, digits, [-] and [/]; cursors over the characters a file name
    keeps, other than the sentinel [first]. *)

Fixpoint string_forall (p : ascii -> bool) (s : string) : bool :=
  match s with
  | EmptyString => true
  | String c rest => (p c && string_forall p rest)%bool
  end.

Fixpoint count_char (c : ascii) (s : string) : nat :=
  match s with
  | EmptyString => O
  | String c' rest => ((if Ascii.eqb c' c then 1 else 0) + count_char c rest)%nat
  end.

Definition id_char (c : ascii) : bool :=
  (safe_char c && negb (Ascii.eqb c "_") || Ascii.eqb c "/")%bool.

Definition id_ok (s : string) : bool := string_forall id_char s.

Definition token_ok (pageToken : option string) : Prop :=
  match pageToken with
  | Some s => string_forall safe_char s = true /\ s <> "first"
  | None => True
  end.

(** [well_shaped na nl r]: the parameters of [r] are well-formed, with [na]
    slashes in the account id and [nl] in the location id. *)
Definition well_shaped (na nl : nat) (r : resource) : Prop :=
  match r with
  | Accounts => True
  | Locations a => id_ok a = true
  | Reviews a l p =>
      id_ok a = true /\ count_char "/" a = na /\
      id_ok l = true /\ count_char "/" l = nl /\
      token_ok p
  end.


(** *** The route handlers: src/app/api/accounts, locations, reviews

    A handler gets the access-token cookie and the query parameters and
    answers with a status and a JSON body; [console_error] holds the lines
    it wrote with [console.error]. *)

(** The [message] the runtime gives its own errors. *)
Variable nativeMessage : exn -> string.

Record HttpResponse : Type := mkHttp { http_status : Z; http_body : json }.

Record handled : Type := mkHandled { response : HttpResponse; console_error : list string }.

(** [err.message], [err.statusCode] and [err.retryAfter || fallback] of a
    caught error. *)
Definition err_message (e : exn) : string :=
  match e with
  | ApiError m _ _ => m
  | PlainError m => m
  | _ => nativeMessage e
  end.

Definition err_statusCode (e : exn) : option Z :=
  match e with
  | ApiError _ statusCode _ => Some statusCode
  | _ => None
  end.

Definition err_retryAfter_or (e : exn) (fallback : Z) : Z :=
  match e with
  | ApiError _ _ (Fin z) => if Z.eqb z 0 then fallback else z
  | _ => fallback
  end.

(** [s || fallback] on strings. *)
Definition str_or (s fallback : string) : string :=
  if String.eqb s "" then fallback else s.

(** [NextResponse.json(data, { status })]; [undefined] cannot be
    serialized. *)
Definition NextResponse_json (data : value) (status : Z) : M HttpResponse :=
  match data with
  | Undefined => throw TypeError
  | Val j => ret (mkHttp status j)
  end.

Definition not_authenticated : HttpResponse :=
  mkHttp 401 (JObj [("error", JStr "Not authenticated")]).

Definition quota_body (err : exn) (fallback : Z) : json :=
  JObj [("error", JStr (err_message err));
        ("retryAfter", JNum (err_retryAfter_or err fallback))].

Definition accounts_GET (cookie : option string) : M handled :=
  let accessToken := default "" cookie in
  if String.eqb accessToken "" then ret (mkHandled not_authenticated []) else
  try_catch
    (let! data := fetchAccounts accessToken in
     let! res := NextResponse_json data 200 in
     ret (mkHandled res []))
    (fun err =>
       if bool_decide (err_statusCode err = Some 429) then
         ret (mkHandled (mkHttp 429 (quota_body err 120)) [])
       else
         ret (mkHandled
                (mkHttp 500
                   (JObj [("error", JStr (str_or (err_message err)
                                            "Failed to fetch accounts"))]))
                ["Accounts fetch error: " ++ err_message err])).

Definition locations_GET (cookie accountId : option string) : M handled :=
  let accessToken := default "" cookie in
  if String.eqb accessToken "" then ret (mkHandled not_authenticated []) else
  let accountId := default "" accountId in
  if String.eqb accountId "" then
    ret (mkHandled (mkHttp 400 (JObj [("error", JStr "Account ID is required")])) [])
  else
  try_catch
    (let! data := fetchLocations accessToken accountId in
     let! res := NextResponse_json data 200 in
     ret (mkHandled res []))
    (fun err =>
       let line := "Locations fetch error: " ++ err_message err in
       if bool_decide (err_statusCode err = Some 429) then
         ret (mkHandled (mkHttp 429 (quota_body err 60)) [line])
       else
         ret (mkHandled
                (mkHttp 500
                   (JObj [("error", JStr (str_or (err_message err)
                                            "Failed to fetch locations"))]))
                [line])).

Definition reviews_GET (cookie accountId locationId pageToken : option string)
    : M handled :=
  let accessToken := default "" cookie in
  if String.eqb accessToken "" then ret (mkHandled not_authenticated []) else
  let accountId := default "" accountId in
  let locationId := default "" locationId in
  let pageToken := if given pageToken then pageToken else None in
  if (String.eqb accountId "" || String.eqb locationId "")%bool then
    ret (mkHandled
           (mkHttp 400 (JObj [("error", JStr "Account ID and Location ID are required")]))
           [])
  else
  try_catch
    (let! data := fetchReviews accessToken accountId locationId pageToken in
     let! res := NextResponse_json data 200 in
     ret (mkHandled res []))
    (fun err =>
       let line := "Reviews fetch error: " ++ err_message err in
       if bool_decide (err_statusCode err = Some 429) then
         ret (mkHandled (mkHttp 429 (quota_body err 60)) [line])
       else
         ret (mkHandled
                (mkHttp 500
                   (JObj [("error", JStr (str_or (err_message err)
                                            "Failed to fetch reviews"))]))
                [line])).

(** A request to one of the three routes, with its query parameters. *)
Inductive api_call : Type :=
| GET_accounts
| GET_locations (accountId : option string)
| GET_reviews (accountId locationId pageToken : option string).

Definition route (cookie : option string) (c : api_call) : M handled :=
  match c with
  | GET_accounts => accounts_GET cookie
  | GET_locations accountId => locations_GET cookie accountId
  | GET_reviews accountId locationId pageToken =>
      reviews_GET cookie accountId locationId pageToken
  end.

(** The resource a call asks for, when its required parameters are there. *)
Definition resource_of (c : api_call) : option resource :=
  match c with
  | GET_accounts => Some Accounts
  | GET_locations accountId =>
      if String.eqb (default "" accountId) "" then None
      else Some (Locations (default "" accountId))
  | GET_reviews accountId locationId pageToken =>
      if (String.eqb (default "" accountId) "" || String.eqb (default "" locationId) "")%bool
      then None
      else Some (Reviews (default "" accountId) (default "" locationId) (cursor pageToken))
  end.

(** The [retryAfter] a route falls back to, and whether it logs a 429. *)
Definition fallback_retry (c : api_call) : Z :=
  match c with
  | GET_accounts => 120
  | _ => 60
  end.

Definition error_label (c : api_call) : string :=
  match c with
  | GET_accounts => "Accounts fetch error: "
  | GET_locations _ => "Locations fetch error: "
  | GET_reviews _ _ _ => "Reviews fetch error: "
  end.

(** ** Facts about the file cache *)

Lemma cache_path_is_file (key : string) :
  String.eqb (getCacheFilePath key) CACHE_DIR = false.
Proof. reflexivity. Qed.

Lemma lockout_path_is_file : String.eqb LOCKOUT_FILE CACHE_DIR = false.
Proof. reflexivity. Qed.

Arguments getCacheFilePath : simpl never.
Arguments LOCKOUT_FILE : simpl never.
Arguments CACHE_DIR : simpl never.

(** Storage works for a path: no operation the code performs on it fails. *)
Definition storage_ok (w : world) (p : string) : Prop :=
  fault w OpMkdir CACHE_DIR = false /\ fault w OpWrite p = false /\
  fault w OpRead p = false /\ fault w OpUnlink p = false.

Ltac run_prims :=
  cbv [bind ret throw lift try_catch ensureCacheDir existsSync mkdirSync
       readFileSync writeFileSync unlinkSync JSON_parse JSON_stringify Date_now
       console_log fetch res_json].

Ltac fields :=
  cbn [files cache_dir now fault upstream latency sent console
       set_files set_cache_dir set_now set_sent set_console advance] in *.

(** Replay a run: reduce, and rewrite with the hypotheses about the world. *)
Ltac replay :=
  repeat (progress (cbv beta iota zeta;
                    cbn [negb orb andb get_prop get_prop_opt fst snd];
                    fields;
                    rewrite ?String.eqb_refl, ?cache_path_is_file, ?lockout_path_is_file;
                    repeat match goal with
                           | H : _ = _ |- _ => rewrite H
                           end)).

Lemma setCache_run (key : string) (data : value) (ttlMs : Z) (w : world) :
  fault w OpMkdir CACHE_DIR = false ->
  fault w OpWrite (getCacheFilePath key) = false ->
  setCache key data ttlMs w =
    (Ret tt,
     set_console (console w ++ [LogCacheSet key ttlMs])
       (set_files (<[getCacheFilePath key := Json (cache_entry data (now w + ttlMs))]> (files w))
          (set_cache_dir true w))).
Proof.
  intros Hmk Hwr.
  unfold setCache. run_prims.
  rewrite String.eqb_refl.
  destruct (cache_dir w) eqn:Hdir; cbn [negb].
  - rewrite Hwr, Hdir. cbn [orb negb].
    destruct w; cbn in Hdir; subst; reflexivity.
  - rewrite Hmk. fields. rewrite Hwr. reflexivity.
Qed.



Lemma setCache_write_fails (key : string) (data : value) (ttlMs : Z) (w : world) :
  cache_dir w = true ->
  fault w OpWrite (getCacheFilePath key) = true ->
  setCache key data ttlMs w =
    (Ret tt, set_console
               (console w ++ [LogCacheWriteError (IoError OpWrite (getCacheFilePath key))]) w).
Proof.
  intros Hdir Hwr.
  unfold setCache. run_prims.
  replay. reflexivity.
Qed.

(** A [try] whose handler returns normally never throws. *)
Lemma try_catch_total {A} (body : M A) (handler : exn -> M A) (w : world) :
  (forall e w', exists a w'', handler e w' = (Ret a, w'')) ->
  exists a w', try_catch body handler w = (Ret a, w').
Proof.
  intros Hh. unfold try_catch.
  destruct (body w) as [[a|e] w']; eauto.
Qed.

Lemma setCache_total (key : string) (data : value) (ttlMs : Z) (w : world) :
  exists w', setCache key data ttlMs w = (Ret tt, w').
Proof.
  destruct (try_catch_total
              (ensureCacheDir;;
               let! t := Date_now in
               writeFileSync (getCacheFilePath key)
                 (JSON_stringify (cache_entry data (t + ttlMs)));;
               console_log (LogCacheSet key ttlMs))
              (fun err => console_log (LogCacheWriteError err)) w) as ([] & w' & H).
  - intros e w'. exists tt. eexists. reflexivity.
  - exists w'. exact H.
Qed.

Lemma getCached_total (key : string) (w : world) :
  exists v w', getCached key w = (Ret v, w').
Proof.
  unfold getCached. apply try_catch_total.
  intros e w'. exists null, w'. reflexivity.
Qed.

Lemma getCached_absent (key : string) (w : world) :
  files w !! getCacheFilePath key = None ->
  getCached key w = (Ret null, w).
Proof.
  intros Hf. unfold getCached. run_prims.
  replay. reflexivity.
Qed.

Lemma getCached_fresh (key : string) (fields : list (string * json)) (w : world) :
  files w !! getCacheFilePath key = Some (Json (JObj fields)) ->
  fault w OpRead (getCacheFilePath key) = false ->
  num_gt (Fin (now w)) (ToNumber (obj_get fields "expiry")) = false ->
  getCached key w =
    (Ret (obj_get fields "data"), set_console (console w ++ [LogCacheHit key]) w).
Proof.
  intros Hf Hrd Hexp. unfold getCached. run_prims.
  replay. reflexivity.
Qed.

Lemma getCached_stale (key : string) (fields : list (string * json)) (w : world) :
  files w !! getCacheFilePath key = Some (Json (JObj fields)) ->
  fault w OpRead (getCacheFilePath key) = false ->
  fault w OpUnlink (getCacheFilePath key) = false ->
  num_gt (Fin (now w)) (ToNumber (obj_get fields "expiry")) = true ->
  getCached key w =
    (Ret null, set_files (delete (getCacheFilePath key) (files w)) w).
Proof.
  intros Hf Hrd Hun Hexp. unfold getCached. run_prims.
  replay. reflexivity.
Qed.

Lemma getCached_read_fails (key : string) (w : world) :
  fault w OpRead (getCacheFilePath key) = true ->
  getCached key w = (Ret null, w).
Proof.
  intros Hrd. unfold getCached. run_prims.
  destruct (files w !! getCacheFilePath key) eqn:Hf; replay; reflexivity.
Qed.

Lemma getCached_malformed (key raw : string) (w : world) :
  files w !! getCacheFilePath key = Some (Malformed raw) ->
  getCached key w = (Ret null, w).
Proof.
  intros Hf. unfold getCached. run_prims.
  destruct (fault w OpRead (getCacheFilePath key)) eqn:Hrd; replay; reflexivity.
Qed.

Lemma getCached_unlink_fails (key : string) (fields : list (string * json)) (w : world) :
  files w !! getCacheFilePath key = Some (Json (JObj fields)) ->
  fault w OpRead (getCacheFilePath key) = false ->
  fault w OpUnlink (getCacheFilePath key) = true ->
  num_gt (Fin (now w)) (ToNumber (obj_get fields "expiry")) = true ->
  getCached key w = (Ret null, w).
Proof.
  intros Hf Hrd Hun Hexp. unfold getCached. run_prims.
  replay. reflexivity.
Qed.

Lemma cache_entry_data (data : value) (expiry : Z) :
  obj_get (match data with Undefined => [] | Val j => [("data", j)] end
             ++ [("expiry", JNum expiry)]) "data" = data.
Proof. destruct data; reflexivity. Qed.

Lemma cache_entry_expiry (data : value) (expiry : Z) :
  obj_get (match data with Undefined => [] | Val j => [("data", j)] end
             ++ [("expiry", JNum expiry)]) "expiry" = Val (JNum expiry).
Proof. destruct data; reflexivity. Qed.


(** ** Facts about the lockout guard *)

Definition open : lockout_status := mkLockout false (Fin 0).

Lemma isLockedOut_total (w : world) :
  exists st w', isLockedOut w = (Ret st, w').
Proof.
  unfold isLockedOut. apply try_catch_total.
  intros e w'. exists open, w'. reflexivity.
Qed.

Lemma isLockedOut_absent (w : world) :
  files w !! LOCKOUT_FILE = None ->
  isLockedOut w = (Ret open, w).
Proof.
  intros Hf. unfold isLockedOut. run_prims. replay. reflexivity.
Qed.

Lemma isLockedOut_tripped (fields : list (string * json)) (e : Z) (w : world) :
  files w !! LOCKOUT_FILE = Some (Json (JObj fields)) ->
  fault w OpRead LOCKOUT_FILE = false ->
  obj_get fields "expiry" = Val (JNum e) ->
  now w < e ->
  isLockedOut w = (Ret (mkLockout true (ceil_div_1000 (Fin (e - now w)))), w).
Proof.
  intros Hf Hrd Hexp Hlt.
  assert (Hle : Z.leb (e - now w) 0 = false) by (apply Z.leb_gt; lia).
  unfold isLockedOut. run_prims. replay.
  cbn [ToNumber num_sub num_le]. rewrite Hle. reflexivity.
Qed.

Lemma isLockedOut_expired (fields : list (string * json)) (e : Z) (w : world) :
  files w !! LOCKOUT_FILE = Some (Json (JObj fields)) ->
  fault w OpRead LOCKOUT_FILE = false ->
  fault w OpUnlink LOCKOUT_FILE = false ->
  obj_get fields "expiry" = Val (JNum e) ->
  e <= now w ->
  isLockedOut w = (Ret open, set_files (delete LOCKOUT_FILE (files w)) w).
Proof.
  intros Hf Hrd Hun Hexp Hge.
  assert (Hle : Z.leb (e - now w) 0 = true) by (apply Z.leb_le; lia).
  unfold isLockedOut. run_prims. replay.
  cbn [ToNumber num_sub num_le]. rewrite Hle. replay. reflexivity.
Qed.

Lemma isLockedOut_read_fails (w : world) :
  fault w OpRead LOCKOUT_FILE = true ->
  isLockedOut w = (Ret open, w).
Proof.
  intros Hrd. unfold isLockedOut. run_prims.
  destruct (files w !! LOCKOUT_FILE) eqn:Hf; replay; reflexivity.
Qed.

Lemma isLockedOut_malformed (raw : string) (w : world) :
  files w !! LOCKOUT_FILE = Some (Malformed raw) ->
  isLockedOut w = (Ret open, w).
Proof.
  intros Hf. unfold isLockedOut. run_prims.
  destruct (fault w OpRead LOCKOUT_FILE) eqn:Hrd; replay; reflexivity.
Qed.

Lemma isLockedOut_unlink_fails (fields : list (string * json)) (e : Z) (w : world) :
  files w !! LOCKOUT_FILE = Some (Json (JObj fields)) ->
  fault w OpRead LOCKOUT_FILE = false ->
  fault w OpUnlink LOCKOUT_FILE = true ->
  obj_get fields "expiry" = Val (JNum e) ->
  e <= now w ->
  isLockedOut w = (Ret open, w).
Proof.
  intros Hf Hrd Hun Hexp Hge.
  assert (Hle : Z.leb (e - now w) 0 = true) by (apply Z.leb_le; lia).
  unfold isLockedOut. run_prims. replay.
  cbn [ToNumber num_sub num_le]. rewrite Hle. replay. reflexivity.
Qed.

(** The guard touches nothing but the lockout record, which it may delete. *)
Lemma isLockedOut_world (w : world) :
  snd (isLockedOut w) = w \/
  snd (isLockedOut w) = set_files (delete LOCKOUT_FILE (files w)) w.
Proof.
  unfold isLockedOut. run_prims. replay.
  destruct (files w !! LOCKOUT_FILE) as [t|] eqn:Hf; replay; [|left; reflexivity].
  destruct (fault w OpRead LOCKOUT_FILE) eqn:Hrd; replay; [left; reflexivity|].
  destruct t as [raw|j]; replay; [left; reflexivity|].
  destruct (fault w OpUnlink LOCKOUT_FILE) eqn:Hun;
    destruct j; replay; try (left; reflexivity);
    match goal with
    | |- context [if ?b then _ else _] => destruct b; replay
    end; (left; reflexivity) || (right; reflexivity).
Qed.

Lemma setLockout_run (w : world) :
  fault w OpMkdir CACHE_DIR = false ->
  fault w OpWrite LOCKOUT_FILE = false ->
  setLockout w =
    (Ret tt,
     set_console (console w ++ [LogLockout])
       (set_files (<[LOCKOUT_FILE := Json (lockout_entry (now w))]> (files w))
          (set_cache_dir true w))).
Proof.
  intros Hmk Hwr.
  unfold setLockout. run_prims. replay.
  destruct (cache_dir w) eqn:Hdir; replay.
  - destruct w; cbn in Hdir; subst; reflexivity.
  - reflexivity.
Qed.

Lemma setLockout_write_fails (w : world) :
  cache_dir w = true ->
  fault w OpWrite LOCKOUT_FILE = true ->
  setLockout w =
    (Ret tt, set_console
               (console w ++ [LogLockoutWriteError (IoError OpWrite LOCKOUT_FILE)]) w).
Proof.
  intros Hdir Hwr. unfold setLockout. run_prims. replay. reflexivity.
Qed.

Lemma setLockout_total (w : world) :
  exists w', setLockout w = (Ret tt, w').
Proof.
  destruct (try_catch_total
              (ensureCacheDir;;
               let! t := Date_now in
               writeFileSync LOCKOUT_FILE (JSON_stringify (lockout_entry t));;
               console_log LogLockout)
              (fun err => console_log (LogLockoutWriteError err)) w) as ([] & w' & H).
  - intros e w'. exists tt. eexists. reflexivity.
  - exists w'. exact H.
Qed.

(** Neither write touches the request log, the clock or the service. *)
Lemma setLockout_frame (w : world) :
  sent (snd (setLockout w)) = sent w /\ now (snd (setLockout w)) = now w.
Proof.
  unfold setLockout. run_prims. replay.
  destruct (cache_dir w); replay;
    repeat match goal with
           | |- context [if ?b then _ else _] => destruct b; replay
           end; split; reflexivity.
Qed.

Lemma setCache_frame (key : string) (data : value) (ttlMs : Z) (w : world) :
  sent (snd (setCache key data ttlMs w)) = sent w.
Proof.
  unfold setCache. run_prims. replay.
  destruct (cache_dir w); replay;
    repeat match goal with
           | |- context [if ?b then _ else _] => destruct b; replay
           end; reflexivity.
Qed.


Lemma isLockedOut_frame (w : world) :
  let w1 := snd (isLockedOut w) in
  fault w1 = fault w /\ upstream w1 = upstream w /\ latency w1 = latency w /\
  now w1 = now w /\ sent w1 = sent w /\ cache_dir w1 = cache_dir w /\
  console w1 = console w.
Proof.
  cbv zeta. destruct (isLockedOut_world w) as [-> | ->]; repeat split; reflexivity.
Qed.

Lemma ceil_div_1000_spec (z : Z) :
  exists q, ceil_div_1000 (Fin z) = Fin q /\ 1000 * (q - 1) < z <= 1000 * q.
Proof.
  exists (- ((- z) / 1000)). split; [reflexivity|].
  pose proof (Z.div_mod (- z) 1000 ltac:(lia)) as Hdm.
  pose proof (Z.mod_pos_bound (- z) 1000 ltac:(lia)) as Hb.
  lia.
Qed.

(** ** Facts about [guardedFetch] *)

Definition blocked_message (r : num) : string :=
  "Rate limit active. Please wait " ++ num_to_string r ++ " seconds.".

Definition exceeded_message : string :=
  "Rate limit exceeded. Please wait 60 seconds.".

Lemma guardedFetch_blocked (u : url) (accessToken : string) (r : num) (w w1 : world) :
  isLockedOut w = (Ret (mkLockout true r), w1) ->
  guardedFetch u accessToken w =
    (Throw (ApiError (blocked_message r) 429 r),
     set_console (console w1 ++ [LogBlocked r]) w1).
Proof.
  intros Hg. unfold guardedFetch, bind at 1. rewrite Hg.
  cbn [locked remainingSeconds]. run_prims. reflexivity.
Qed.

(** A call the guard lets through issues exactly one request. *)
Lemma guardedFetch_open_sent (u : url) (accessToken : string) (r : num) (w w1 : world) :
  isLockedOut w = (Ret (mkLockout false r), w1) ->
  sent (snd (guardedFetch u accessToken w)) = (sent w ++ [(u, accessToken)])%list.
Proof.
  intros Hg.
  pose proof (isLockedOut_frame w) as Hfr. rewrite Hg in Hfr. cbn [snd] in Hfr.
  destruct Hfr as (_ & _ & _ & _ & Hs & _).
  unfold guardedFetch, bind at 1. rewrite Hg. cbn [locked].
  unfold bind at 1, fetch.
  destruct (upstream w1 u accessToken) as [|s b]; [cbn; congruence|].
  cbn [res_status].
  destruct (Z.eqb s 429); [|cbn; congruence].
  unfold bind at 1.
  match goal with |- context [setLockout ?w2] =>
    pose proof (setLockout_frame w2) as [Hs2 _];
    destruct (setLockout_total w2) as [w3 H3]; rewrite H3 in Hs2 |- *
  end.
  cbn [snd] in Hs2. fields.
  assert (Hw3 : sent w3 = (sent w ++ [(u, accessToken)])%list) by congruence.
  run_prims. cbn [res_body].
  destruct b as [j|]; cbv beta iota zeta.
  - destruct (get_prop (Val j) "error") as [x|]; [|exact Hw3].
    destruct (get_prop_opt x "message"); exact Hw3.
  - exact Hw3.
Qed.

(** The body an upstream 429 is read as: its JSON, or [{}] when it has none. *)
Definition body_of (b : option json) : value :=
  match b with
  | Some j => Val j
  | None => Val (JObj [])
  end.

Lemma guardedFetch_429 (u : url) (accessToken : string) (r : num) (w w1 : world)
    (b : option json) (err m : value) :
  isLockedOut w = (Ret (mkLockout false r), w1) ->
  upstream w u accessToken = Reply 429 b ->
  fault w OpMkdir CACHE_DIR = false ->
  fault w OpWrite LOCKOUT_FILE = false ->
  get_prop (body_of b) "error" = Ret err ->
  get_prop_opt err "message" = Ret m ->
  guardedFetch u accessToken w =
    (Throw (ApiError (ToString (or_else m (Val (JStr exceeded_message)))) 429 (Fin 60)),
     set_console (console w ++ [LogLockout])
       (set_files (<[LOCKOUT_FILE := Json (lockout_entry (now w + latency w))]> (files w1))
          (set_cache_dir true
             (set_now (now w + latency w) (set_sent (sent w ++ [(u, accessToken)]) w1))))).
Proof.
  intros Hg Hup Hmk Hwr Herr Hm.
  pose proof (isLockedOut_frame w) as Hfr. rewrite Hg in Hfr. cbn [snd] in Hfr.
  destruct Hfr as (Hfa & Hu & Hl & Hn & Hs & Hd & Hc).
  unfold guardedFetch, bind at 1. rewrite Hg. cbn [locked].
  unfold bind at 1, fetch. rewrite Hu, Hup, Hl, Hn, Hs.
  cbn [res_status Z.eqb Pos.eqb]. unfold bind at 1.
  rewrite setLockout_run by (fields; rewrite Hfa; assumption).
  fields. rewrite Hc.
  unfold bind at 1, try_catch, res_json. cbn [res_body].
  assert (Hb : (let (o, w') := match b with
                               | Some j => ret (Val j)
                               | None => throw SyntaxError
                               end
                                 (set_console (console w ++ [LogLockout])
                                    (set_files
                                       (<[LOCKOUT_FILE:=Json (lockout_entry (now w + latency w))]> (files w1))
                                       (set_cache_dir true
                                          (set_now (now w + latency w)
                                             (set_sent (sent w ++ [(u, accessToken)]) w1))))) in
                match o with
                | Ret a => (Ret a, w')
                | Throw _ => ret (Val (JObj [])) w'
                end) = (Ret (body_of b), set_console (console w ++ [LogLockout])
                                    (set_files
                                       (<[LOCKOUT_FILE:=Json (lockout_entry (now w + latency w))]> (files w1))
                                       (set_cache_dir true
                                          (set_now (now w + latency w)
                                             (set_sent (sent w ++ [(u, accessToken)]) w1)))))).
  { destruct b; reflexivity. }
  rewrite Hb. unfold bind, lift, throw. rewrite Herr, Hm. reflexivity.
Qed.


(** ** Facts about the resource fetchers *)

Lemma fetchResource_shape (accessToken : string) (r : resource) :
  fetchResource accessToken r =
  cached_fetch (cacheKey r) (requestUrl r) (failureMessage r) accessToken.
Proof. destruct r; reflexivity. Qed.

Lemma cached_fetch_hit (key : string) (u : url) (fallback accessToken : string)
    (data : value) (w w' : world) :
  getCached key w = (Ret data, w') ->
  truthy data = true ->
  cached_fetch key u fallback accessToken w = (Ret data, w').
Proof.
  intros Hg Ht. unfold cached_fetch, bind at 1. rewrite Hg, Ht. reflexivity.
Qed.

Lemma cached_fetch_miss (key : string) (u : url) (fallback accessToken : string)
    (data : value) (w w' : world) :
  getCached key w = (Ret data, w') ->
  truthy data = false ->
  cached_fetch key u fallback accessToken w =
  fetch_upstream key u fallback accessToken w'.
Proof.
  intros Hg Ht. unfold cached_fetch, bind at 1. rewrite Hg, Ht. reflexivity.
Qed.

Lemma throw_upstream_error_frame {A} (error : value) (fallback : string) (w : world) :
  snd (throw_upstream_error (A := A) error fallback w) = w.
Proof.
  unfold throw_upstream_error. run_prims.
  destruct (get_prop error "error") as [x|]; [|reflexivity].
  destruct (get_prop_opt x "message"); reflexivity.
Qed.

(** After the guarded call nothing more is sent. *)
Lemma fetch_upstream_sent (key : string) (u : url) (fallback accessToken : string)
    (w : world) :
  sent (snd (fetch_upstream key u fallback accessToken w)) =
  sent (snd (guardedFetch u accessToken w)).
Proof.
  unfold fetch_upstream, bind at 1.
  destruct (guardedFetch u accessToken w) as [[res|e] w1]; [|reflexivity].
  cbn [snd]. destruct (res_ok res); cbn [negb].
  - unfold bind at 1, res_json.
    destruct (res_body res) as [j|]; [|reflexivity].
    unfold ret at 1. unfold bind at 1.
    destruct (setCache_total key (Val j) CACHE_TTL w1) as [w2 H2].
    pose proof (setCache_frame key (Val j) CACHE_TTL w1) as Hs.
    rewrite H2 in Hs |- *. exact Hs.
  - unfold bind at 1, res_json.
    destruct (res_body res) as [j|]; [|reflexivity].
    unfold ret at 1. rewrite throw_upstream_error_frame. reflexivity.
Qed.

Lemma fetch_upstream_blocked (key : string) (u : url) (fallback accessToken : string)
    (r : num) (w w1 : world) :
  isLockedOut w = (Ret (mkLockout true r), w1) ->
  fetch_upstream key u fallback accessToken w =
    (Throw (ApiError (blocked_message r) 429 r),
     set_console (console w1 ++ [LogBlocked r]) w1).
Proof.
  intros Hg. unfold fetch_upstream, bind at 1.
  rewrite (guardedFetch_blocked u accessToken r w w1 Hg). reflexivity.
Qed.


(** ** The claims about the server side *)

(** The lockout record on disk: a readable JSON object whose [expiry] is the
    number [e]. *)
Definition lockout_record (w : world) (e : Z) : Prop :=
  exists fields,
    files w !! LOCKOUT_FILE = Some (Json (JObj fields)) /\
    obj_get fields "expiry" = Val (JNum e) /\
    fault w OpRead LOCKOUT_FILE = false.

(** A cache record on disk for [key]: a readable JSON object holding
    [data] and the numeric [expiry] [e]. *)
Definition cache_record (w : world) (key : string) (data : value) (e : Z) : Prop :=
  exists fields,
    files w !! getCacheFilePath key = Some (Json (JObj fields)) /\
    obj_get fields "data" = data /\
    obj_get fields "expiry" = Val (JNum e) /\
    fault w OpRead (getCacheFilePath key) = false.

(** C1. While the lockout record's expiry [e] is in the future, a
    [guardedFetch] for any URL throws an [ApiError] with status 429 that
    carries the remaining cool-down [ceil((e - now) / 1000)] seconds, and
    leaves the request log (and everything but the console) untouched;
    and whenever a [guardedFetch] does add a request to the log, the guard
    had reported "not locked". *)
Theorem lockout_blocks_every_call (u : url) (accessToken : string) (e : Z) (w : world) :
  lockout_record w e ->
  now w < e ->
  (exists secs,
      1000 * (secs - 1) < e - now w <= 1000 * secs /\
      guardedFetch u accessToken w =
        (Throw (ApiError (blocked_message (Fin secs)) 429 (Fin secs)),
         set_console (console w ++ [LogBlocked (Fin secs)]) w)) /\
  sent (snd (guardedFetch u accessToken w)) = sent w /\
  (forall u' accessToken' w',
      sent (snd (guardedFetch u' accessToken' w')) <> sent w' ->
      exists r w1, isLockedOut w' = (Ret (mkLockout false r), w1)).
Proof.
  intros (fields & Hf & Hexp & Hrd) Hlt.
  pose proof (isLockedOut_tripped fields e w Hf Hrd Hexp Hlt) as Hg.
  destruct (ceil_div_1000_spec (e - now w)) as (secs & Hq & Hb).
  rewrite Hq in Hg.
  pose proof (guardedFetch_blocked u accessToken (Fin secs) w w Hg) as Hrun.
  split; [exists secs; split; assumption|].
  split; [rewrite Hrun; reflexivity|].
  intros u' tok' w' Hsent.
  destruct (isLockedOut_total w') as ([[] r] & w1 & Hg').
  - exfalso. apply Hsent.
    rewrite (guardedFetch_blocked u' tok' r w' w1 Hg'). cbn [snd]. fields.
    pose proof (isLockedOut_frame w') as Hfr. rewrite Hg' in Hfr.
    cbn [snd] in Hfr. tauto.
  - exists r, w1. exact Hg'.
Qed.

(** C5. The first check made at or after the record's expiry deletes the
    record and reports "not locked"; a guarded call made then, or after that
    check, issues its request; and the passing of time alone never removes
    the record. *)
Theorem lockout_recovers_on_first_check (u : url) (accessToken : string) (e : Z) (w : world) :
  lockout_record w e ->
  fault w OpUnlink LOCKOUT_FILE = false ->
  e <= now w ->
  isLockedOut w = (Ret open, set_files (delete LOCKOUT_FILE (files w)) w) /\
  files (snd (isLockedOut w)) !! LOCKOUT_FILE = None /\
  sent (snd (guardedFetch u accessToken w)) = (sent w ++ [(u, accessToken)])%list /\
  sent (snd (guardedFetch u accessToken (snd (isLockedOut w)))) =
    (sent w ++ [(u, accessToken)])%list /\
  (forall d, files (advance d w) = files w).
Proof.
  intros (fields & Hf & Hexp & Hrd) Hun Hge.
  pose proof (isLockedOut_expired fields e w Hf Hrd Hun Hexp Hge) as Hg.
  split; [exact Hg|].
  rewrite Hg. cbn [snd]. fields.
  split; [apply lookup_delete_eq|].
  split; [exact (guardedFetch_open_sent u accessToken (Fin 0) w _ Hg)|].
  split; [|reflexivity].
  assert (Hno : files (set_files (delete LOCKOUT_FILE (files w)) w) !! LOCKOUT_FILE = None)
    by apply lookup_delete_eq.
  exact (guardedFetch_open_sent u accessToken (Fin 0) _ _ (isLockedOut_absent _ Hno)).
Qed.

(** C3. After [setCache(k, v, ttl)] on working storage, a [getCached(k)] at
    a time not after [set-time + ttl] returns [v], and one after it returns
    [null] and leaves no file for [k]. *)
Theorem cache_ttl (k : string) (v : value) (ttl d : Z) (w : world) :
  storage_ok w (getCacheFilePath k) ->
  let w1 := advance d (snd (setCache k v ttl w)) in
  (now w1 <= now w + ttl -> fst (getCached k w1) = Ret v) /\
  (now w1 > now w + ttl ->
     fst (getCached k w1) = Ret null /\
     files (snd (getCached k w1)) !! getCacheFilePath k = None).
Proof.
  intros (Hmk & Hwr & Hrd & Hun). cbv zeta.
  rewrite (setCache_run k v ttl w Hmk Hwr). cbn [snd].
  set (w1 := advance d _).
  assert (Hf : files w1 !! getCacheFilePath k =
               Some (Json (cache_entry v (now w + ttl)))) by apply lookup_insert_eq.
  assert (Hrd1 : fault w1 OpRead (getCacheFilePath k) = false) by exact Hrd.
  assert (Hun1 : fault w1 OpUnlink (getCacheFilePath k) = false) by exact Hun.
  unfold cache_entry in Hf.
  split; intros Ht.
  - rewrite (getCached_fresh k _ w1 Hf Hrd1).
    + cbn [fst]. rewrite cache_entry_data. reflexivity.
    + rewrite cache_entry_expiry. cbn [ToNumber num_gt]. apply Z.ltb_ge. lia.
  - rewrite (getCached_stale k _ w1 Hf Hrd1 Hun1).
    + cbn [fst snd]. fields. split; [reflexivity | apply lookup_delete_eq].
    + rewrite cache_entry_expiry. cbn [ToNumber num_gt]. apply Z.ltb_lt. lia.
Qed.


(** Whatever becomes of the lockout write, a 429 is reported the same way. *)
Lemma guardedFetch_429_throws (u : url) (accessToken : string) (r : num) (w w1 : world)
    (b : option json) (err m : value) :
  isLockedOut w = (Ret (mkLockout false r), w1) ->
  upstream w u accessToken = Reply 429 b ->
  get_prop (body_of b) "error" = Ret err ->
  get_prop_opt err "message" = Ret m ->
  fst (guardedFetch u accessToken w) =
    Throw (ApiError (ToString (or_else m (Val (JStr exceeded_message)))) 429 (Fin 60)).
Proof.
  intros Hg Hup Herr Hm.
  pose proof (isLockedOut_frame w) as Hfr. rewrite Hg in Hfr. cbn [snd] in Hfr.
  destruct Hfr as (Hfa & Hu & Hl & Hn & Hs & Hd & Hc).
  unfold guardedFetch, bind at 1. rewrite Hg. cbn [locked].
  unfold bind at 1, fetch. rewrite Hu, Hup.
  cbn [res_status Z.eqb Pos.eqb]. unfold bind at 1.
  match goal with |- context [setLockout ?w2] =>
    destruct (setLockout_total w2) as [w3 H3]; rewrite H3
  end.
  unfold bind at 1, try_catch, res_json. cbn [res_body].
  assert (Hb : (let (o, w') := match b with
                               | Some j => ret (Val j)
                               | None => throw SyntaxError
                               end w3 in
                match o with
                | Ret a => (Ret a, w')
                | Throw _ => ret (Val (JObj [])) w'
                end) = (Ret (body_of b), w3)).
  { destruct b; reflexivity. }
  rewrite Hb. unfold bind, lift, throw. rewrite Herr, Hm. reflexivity.
Qed.

(** A cache lookup changes nothing but the file it may delete and the
    console. *)
Lemma getCached_frame (key : string) (w : world) :
  let w1 := snd (getCached key w) in
  fault w1 = fault w /\ upstream w1 = upstream w /\ latency w1 = latency w /\
  now w1 = now w /\ sent w1 = sent w /\ cache_dir w1 = cache_dir w /\
  (forall p, p <> getCacheFilePath key -> files w1 !! p = files w !! p).
Proof.
  cbv zeta. unfold getCached. run_prims. replay.
  destruct (files w !! getCacheFilePath key) as [t|] eqn:Hf; replay;
    [|repeat split; reflexivity].
  destruct (fault w OpRead (getCacheFilePath key)) eqn:Hrd; replay;
    [repeat split; reflexivity|].
  destruct t as [raw|j]; replay; [repeat split; reflexivity|].
  destruct (fault w OpUnlink (getCacheFilePath key)) eqn:Hun;
    destruct j; replay; try (repeat split; reflexivity);
    match goal with
    | |- context [if ?b then _ else _] => destruct b; replay
    end; repeat split; try reflexivity;
    intros p Hp; fields; apply lookup_delete_ne; congruence.
Qed.

(** The [expiry] a stored record carries. *)
Definition expiry_of (t : text) : value :=
  match t with
  | Json (JObj fields) => obj_get fields "expiry"
  | _ => Undefined
  end.

(** C2, as the code has it. When the guard is open and the upstream
    answers 429 with a body other than the JSON literal [null], on working
    storage [guardedFetch] writes a lockout record expiring 60 000 ms after
    the time the response arrived, and throws an [ApiError] with status 429
    and [retryAfter] 60 = ceil(LOCKOUT_TTL / 1000) whose message is the
    body's [error.message] when that is truthy (itself, for a non-empty
    string) and the generic text otherwise. *)
Theorem quota_response_trips_lockout (u : url) (accessToken : string) (r : num)
    (w w1 : world) (b : option json) (err m : value) :
  isLockedOut w = (Ret (mkLockout false r), w1) ->
  upstream w u accessToken = Reply 429 b ->
  fault w OpMkdir CACHE_DIR = false ->
  fault w OpWrite LOCKOUT_FILE = false ->
  get_prop (body_of b) "error" = Ret err ->
  get_prop_opt err "message" = Ret m ->
  let w2 := snd (guardedFetch u accessToken w) in
  now w2 = now w + latency w /\
  expiry_of <$> files w2 !! LOCKOUT_FILE = Some (Val (JNum (now w2 + 60 * 1000))) /\
  ceil_div_1000 (Fin LOCKOUT_TTL) = Fin 60 /\
  exists msg,
    fst (guardedFetch u accessToken w) = Throw (ApiError msg 429 (Fin 60)) /\
    (truthy m = true -> msg = ToString m) /\
    (forall s, m = Val (JStr s) -> s <> "" -> msg = s) /\
    (truthy m = false -> msg = exceeded_message).
Proof.
  intros Hg Hup Hmk Hwr Herr Hm. cbv zeta.
  rewrite (guardedFetch_429 u accessToken r w w1 b err m Hg Hup Hmk Hwr Herr Hm).
  cbn [fst snd]. fields.
  split; [reflexivity|].
  split; [rewrite lookup_insert_eq; reflexivity|].
  split; [reflexivity|].
  eexists. split; [reflexivity|].
  unfold or_else.
  split; [intros ->; reflexivity|].
  split; [|intros ->; reflexivity].
  intros s -> Hs. cbn [truthy].
  destruct (String.eqb_spec s ""); [contradiction | reflexivity].
Qed.

(** C6, as the code has it. If the key a fetcher derives holds an unexpired
    record whose payload is truthy, the fetcher returns that payload and
    changes nothing but the console: no request is sent and the lockout
    record, tripped or expired, is neither read nor removed. *)
Theorem cache_hit_bypasses_lockout (accessToken : string) (r : resource)
    (data : value) (e : Z) (w : world) :
  cache_record w (cacheKey r) data e ->
  now w <= e ->
  truthy data = true ->
  fetchResource accessToken r w =
    (Ret data, set_console (console w ++ [LogCacheHit (cacheKey r)]) w) /\
  sent (snd (fetchResource accessToken r w)) = sent w /\
  files (snd (fetchResource accessToken r w)) = files w.
Proof.
  intros (fields & Hf & Hdata & Hexp & Hrd) Hle Ht.
  assert (Hrun : fetchResource accessToken r w =
                 (Ret data, set_console (console w ++ [LogCacheHit (cacheKey r)]) w)).
  { rewrite fetchResource_shape.
    apply cached_fetch_hit; [|exact Ht].
    rewrite <- Hdata. apply getCached_fresh; [exact Hf | exact Hrd |].
    rewrite Hexp. cbn [ToNumber num_gt]. apply Z.ltb_ge. lia. }
  rewrite Hrun. repeat split.
Qed.

(** C10. If the key a fetcher derives holds an unexpired record whose
    payload is falsy ([null], [0], the empty string, [false], or no payload
    at all), the fetcher goes on to the guarded upstream fetch as on a miss:
    under a tripped lockout it throws the 429 [ApiError] without sending
    anything, and under an open guard it sends its request. *)
Theorem falsy_payload_is_a_miss (accessToken : string) (r : resource)
    (data : value) (e : Z) (w : world) :
  cache_record w (cacheKey r) data e ->
  now w <= e ->
  truthy data = false ->
  let w' := set_console (console w ++ [LogCacheHit (cacheKey r)]) w in
  fetchResource accessToken r w =
    fetch_upstream (cacheKey r) (requestUrl r) (failureMessage r) accessToken w' /\
  (forall le, lockout_record w le -> now w < le ->
     exists secs,
       fst (fetchResource accessToken r w) =
         Throw (ApiError (blocked_message (Fin secs)) 429 (Fin secs)) /\
       sent (snd (fetchResource accessToken r w)) = sent w) /\
  (files w !! LOCKOUT_FILE = None ->
     sent (snd (fetchResource accessToken r w)) =
       (sent w ++ [(requestUrl r, accessToken)])%list).
Proof.
  intros (fields & Hf & Hdata & Hexp & Hrd) Hle Ht. cbv zeta.
  assert (Hrun : fetchResource accessToken r w =
                 fetch_upstream (cacheKey r) (requestUrl r) (failureMessage r) accessToken
                   (set_console (console w ++ [LogCacheHit (cacheKey r)]) w)).
  { rewrite fetchResource_shape.
    apply cached_fetch_miss with (data := data); [|exact Ht].
    rewrite <- Hdata. apply getCached_fresh; [exact Hf | exact Hrd |].
    rewrite Hexp. cbn [ToNumber num_gt]. apply Z.ltb_ge. lia. }
  split; [exact Hrun|]. rewrite Hrun.
  set (w' := set_console _ w).
  split.
  - intros le (lf & Hlf & Hlexp & Hlrd) Hlt.
    destruct (ceil_div_1000_spec (le - now w)) as (secs & Hq & _).
    exists secs.
    assert (Hg : isLockedOut w' = (Ret (mkLockout true (Fin secs)), w')).
    { rewrite <- Hq. exact (isLockedOut_tripped lf le w' Hlf Hlrd Hlexp Hlt). }
    rewrite (fetch_upstream_blocked _ _ _ _ _ _ _ Hg). split; reflexivity.
  - intros Hno.
    rewrite fetch_upstream_sent.
    exact (guardedFetch_open_sent _ _ (Fin 0) w' w' (isLockedOut_absent w' Hno)).
Qed.


Lemma falsy_json (j : json) :
  truthy (Val j) = false <->
  j = JNull \/ j = JBool false \/ j = JNum 0 \/ j = JStr "".
Proof.
  split.
  - destruct j as [|[]|z|s| |]; cbn [truthy negb]; try discriminate; auto.
    + intros H. apply negb_false_iff, Z.eqb_eq in H. subst. auto.
    + intros H. apply negb_false_iff, String.eqb_eq in H. subst. auto.
  - intros [-> | [-> | [-> | ->]]]; reflexivity.
Qed.

(** A write that cannot go through: the directory is missing and cannot be
    made, or the file cannot be written. *)
Definition write_fails (w : world) (p : string) : Prop :=
  (cache_dir w = false /\ fault w OpMkdir CACHE_DIR = true) \/
  fault w OpWrite p = true.

Lemma setCache_fails (key : string) (data : value) (ttlMs : Z) (w : world) :
  write_fails w (getCacheFilePath key) ->
  exists e w',
    setCache key data ttlMs w = (Ret tt, w') /\
    console w' = (console w ++ [LogCacheWriteError e])%list /\
    files w' = files w.
Proof.
  intros Hfail. unfold setCache. run_prims. replay.
  destruct (cache_dir w) eqn:Hdir; replay.
  - destruct Hfail as [[? _] | Hwr]; [congruence|]. replay.
    eexists _, _. repeat split.
  - destruct (fault w OpMkdir CACHE_DIR) eqn:Hmk; replay.
    + eexists _, _. repeat split.
    + destruct Hfail as [[_ ?] | Hwr]; [congruence|]. replay.
      eexists _, _. repeat split.
Qed.

Lemma setLockout_fails (w : world) :
  write_fails w LOCKOUT_FILE ->
  exists e w',
    setLockout w = (Ret tt, w') /\
    console w' = (console w ++ [LogLockoutWriteError e])%list /\
    files w' = files w.
Proof.
  intros Hfail. unfold setLockout. run_prims. replay.
  destruct (cache_dir w) eqn:Hdir; replay.
  - destruct Hfail as [[? _] | Hwr]; [congruence|]. replay.
    eexists _, _. repeat split.
  - destruct (fault w OpMkdir CACHE_DIR) eqn:Hmk; replay.
    + eexists _, _. repeat split.
    + destruct Hfail as [[_ ?] | Hwr]; [congruence|]. replay.
      eexists _, _. repeat split.
Qed.

(** A successful upstream answer is returned whatever the cache write does. *)
Lemma fetch_upstream_success (key : string) (u : url) (fallback accessToken : string)
    (r : num) (w w1 : world) (s : Z) (j : json) :
  isLockedOut w = (Ret (mkLockout false r), w1) ->
  upstream w u accessToken = Reply s (Some j) ->
  200 <= s <= 299 ->
  fst (fetch_upstream key u fallback accessToken w) = Ret (Val j).
Proof.
  intros Hg Hup Hs.
  pose proof (isLockedOut_frame w) as Hfr. rewrite Hg in Hfr. cbn [snd] in Hfr.
  destruct Hfr as (_ & Hu & _).
  assert (H429 : Z.eqb s 429 = false) by (apply Z.eqb_neq; lia).
  assert (Hok : res_ok (mkResponse s (Some j)) = true).
  { unfold res_ok. cbn [res_status].
    apply andb_true_iff. split; apply Z.leb_le; lia. }
  unfold fetch_upstream, bind at 1, guardedFetch, bind at 1. rewrite Hg. cbn [locked].
  unfold bind at 1, fetch. rewrite Hu, Hup. cbn [res_status]. rewrite H429.
  unfold ret at 1. rewrite Hok. cbn [negb].
  unfold bind at 1, res_json. cbn [res_body]. unfold ret at 1. unfold bind at 1.
  match goal with |- context [setCache ?k ?d ?t ?w2] =>
    destruct (setCache_total k d t w2) as [w3 H3]; rewrite H3
  end.
  reflexivity.
Qed.

(** C9. Storage failures stay inside the cache and the guard.
    [getCached], [isLockedOut], [setCache] and [setLockout] never throw; a
    read, parse or delete failure makes [getCached] return [null] and
    [isLockedOut] report "not locked"; a failed write is logged on the console, leaves the
    files as they were, and the caller goes on: a fetcher still returns the
    upstream payload, and a 429 is still reported as the same [ApiError]. *)
Theorem storage_failures_never_surface (key : string) (data : value) (ttlMs : Z)
    (w : world) :
  ((exists v w', getCached key w = (Ret v, w')) /\
   (exists st w', isLockedOut w = (Ret st, w')) /\
   (exists w', setCache key data ttlMs w = (Ret tt, w')) /\
   (exists w', setLockout w = (Ret tt, w'))) /\
  ((fault w OpRead (getCacheFilePath key) = true -> getCached key w = (Ret null, w)) /\
   (forall raw, files w !! getCacheFilePath key = Some (Malformed raw) ->
                getCached key w = (Ret null, w)) /\
   (forall fields, files w !! getCacheFilePath key = Some (Json (JObj fields)) ->
                   fault w OpRead (getCacheFilePath key) = false ->
                   fault w OpUnlink (getCacheFilePath key) = true ->
                   num_gt (Fin (now w)) (ToNumber (obj_get fields "expiry")) = true ->
                   getCached key w = (Ret null, w)) /\
   (fault w OpRead LOCKOUT_FILE = true -> isLockedOut w = (Ret open, w)) /\
   (forall raw, files w !! LOCKOUT_FILE = Some (Malformed raw) ->
                isLockedOut w = (Ret open, w)) /\
   (forall fields e, files w !! LOCKOUT_FILE = Some (Json (JObj fields)) ->
                     fault w OpRead LOCKOUT_FILE = false ->
                     fault w OpUnlink LOCKOUT_FILE = true ->
                     obj_get fields "expiry" = Val (JNum e) ->
                     e <= now w ->
                     isLockedOut w = (Ret open, w))) /\
  ((write_fails w (getCacheFilePath key) ->
      exists e w', setCache key data ttlMs w = (Ret tt, w') /\
                   console w' = (console w ++ [LogCacheWriteError e])%list /\
                   files w' = files w) /\
   (write_fails w LOCKOUT_FILE ->
      exists e w', setLockout w = (Ret tt, w') /\
                   console w' = (console w ++ [LogLockoutWriteError e])%list /\
                   files w' = files w)) /\
  ((forall accessToken r s j,
      files w !! storageKey r = None ->
      files w !! LOCKOUT_FILE = None ->
      upstream w (requestUrl r) accessToken = Reply s (Some j) ->
      200 <= s <= 299 ->
      fst (fetchResource accessToken r w) = Ret (Val j)) /\
   (forall u accessToken b err m,
      files w !! LOCKOUT_FILE = None ->
      upstream w u accessToken = Reply 429 b ->
      get_prop (body_of b) "error" = Ret err ->
      get_prop_opt err "message" = Ret m ->
      fst (guardedFetch u accessToken w) =
        Throw (ApiError (ToString (or_else m (Val (JStr exceeded_message)))) 429 (Fin 60)))).
Proof.
  repeat split.
  - apply getCached_total.
  - apply isLockedOut_total.
  - apply setCache_total.
  - apply setLockout_total.
  - apply getCached_read_fails.
  - intros raw. apply getCached_malformed.
  - intros fields. apply getCached_unlink_fails.
  - apply isLockedOut_read_fails.
  - intros raw. apply isLockedOut_malformed.
  - intros fields e. apply isLockedOut_unlink_fails.
  - apply setCache_fails.
  - apply setLockout_fails.
  - intros tok r s j Hmiss Hno Hup Hs.
    rewrite fetchResource_shape.
    rewrite (cached_fetch_miss _ _ _ _ null w w (getCached_absent _ w Hmiss) eq_refl).
    exact (fetch_upstream_success _ _ _ _ _ w w s j (isLockedOut_absent w Hno) Hup Hs).
  - intros u tok b err m Hno Hup Herr Hm.
    exact (guardedFetch_429_throws u tok _ w w b err m (isLockedOut_absent w Hno) Hup Herr Hm).
Qed.


(** ** Beyond the claims: more about the fetchers and the guard *)

(** A miss followed by an open guard: the request goes out, and the world
    the answer is handled in. *)
Lemma guardedFetch_reply (u : url) (accessToken : string) (s : Z) (b : option json)
    (w : world) :
  files w !! LOCKOUT_FILE = None ->
  upstream w u accessToken = Reply s b ->
  s <> 429 ->
  guardedFetch u accessToken w =
    (Ret (mkResponse s b),
     set_now (now w + latency w) (set_sent (sent w ++ [(u, accessToken)]) w)).
Proof.
  intros Hno Hup Hs.
  assert (H429 : Z.eqb s 429 = false) by (apply Z.eqb_neq; exact Hs).
  unfold guardedFetch, bind at 1. rewrite (isLockedOut_absent w Hno). unfold open. cbn [locked].
  unfold bind at 1, fetch. cbv beta zeta. rewrite Hup. cbn [res_status]. rewrite H429. reflexivity.
Qed.

Lemma res_ok_false (s : Z) (b : option json) :
  ~ (200 <= s <= 299) -> res_ok (mkResponse s b) = false.
Proof.
  intros Hs. unfold res_ok. cbn [res_status].
  apply andb_false_iff.
  destruct (Z.leb_spec 200 s); [|left; reflexivity].
  destruct (Z.leb_spec s 299); [lia | right; reflexivity].
Qed.

Lemma res_ok_true (s : Z) (b : option json) :
  200 <= s <= 299 -> res_ok (mkResponse s b) = true.
Proof.
  intros Hs. unfold res_ok. cbn [res_status].
  apply andb_true_iff. split; apply Z.leb_le; lia.
Qed.

Lemma fetchResource_upstream_error (accessToken : string) (r : resource) (s : Z)
    (body : json) (err m : value) (w : world) :
  files w !! storageKey r = None ->
  files w !! LOCKOUT_FILE = None ->
  upstream w (requestUrl r) accessToken = Reply s (Some body) ->
  s <> 429 -> ~ (200 <= s <= 299) ->
  get_prop (Val body) "error" = Ret err ->
  get_prop_opt err "message" = Ret m ->
  fetchResource accessToken r w =
    (Throw (PlainError (ToString (or_else m (Val (JStr (failureMessage r)))))),
     set_now (now w + latency w)
       (set_sent (sent w ++ [(requestUrl r, accessToken)]) w)).
Proof.
  intros Hmiss Hno Hup Hs Hnok Herr Hm.
  rewrite fetchResource_shape.
  rewrite (cached_fetch_miss _ _ _ _ null w w (getCached_absent _ w Hmiss) eq_refl).
  unfold fetch_upstream, bind at 1.
  rewrite (guardedFetch_reply _ _ s (Some body) w Hno Hup Hs).
  rewrite (res_ok_false s (Some body) Hnok). cbn [negb].
  unfold bind at 1, res_json. cbn [res_body]. unfold ret at 1.
  unfold throw_upstream_error, bind, lift, throw. rewrite Herr, Hm. reflexivity.
Qed.

(** X1. A cache miss, an open guard and an upstream answer that is neither
    a success nor a 429, with a JSON body other than [null]: the fetcher
    throws a plain [Error] whose message is the body's [error.message] when
    that is truthy and the fetcher's own fallback text otherwise; exactly
    one request was sent, and no file was written or removed. *)
Theorem upstream_error_is_generic (accessToken : string) (r : resource) (s : Z)
    (body : json) (err m : value) (w : world) :
  files w !! storageKey r = None ->
  files w !! LOCKOUT_FILE = None ->
  upstream w (requestUrl r) accessToken = Reply s (Some body) ->
  s <> 429 -> ~ (200 <= s <= 299) ->
  get_prop (Val body) "error" = Ret err ->
  get_prop_opt err "message" = Ret m ->
  fst (fetchResource accessToken r w) =
    Throw (PlainError (ToString (or_else m (Val (JStr (failureMessage r)))))) /\
  sent (snd (fetchResource accessToken r w)) =
    (sent w ++ [(requestUrl r, accessToken)])%list /\
  files (snd (fetchResource accessToken r w)) = files w.
Proof.
  intros Hmiss Hno Hup Hs Hnok Herr Hm.
  rewrite (fetchResource_upstream_error accessToken r s body err m w
             Hmiss Hno Hup Hs Hnok Herr Hm).
  split; [reflexivity | split; reflexivity].
Qed.

(** X2. An answer whose body is not JSON, at any status but 429, is not
    turned into the fallback text: [res.json()] rejects and the fetcher
    throws that [SyntaxError]; a request that cannot be made at all throws
    the [TypeError] of [fetch]. In both cases one request was attempted and
    no file was written or removed. *)
Theorem unreadable_answer_escapes (accessToken : string) (r : resource) (w : world) :
  files w !! storageKey r = None ->
  files w !! LOCKOUT_FILE = None ->
  (forall s, upstream w (requestUrl r) accessToken = Reply s None -> s <> 429 ->
     fst (fetchResource accessToken r w) = Throw SyntaxError) /\
  (upstream w (requestUrl r) accessToken = NetError ->
     fst (fetchResource accessToken r w) = Throw TypeError) /\
  ((upstream w (requestUrl r) accessToken = NetError \/
    exists s, s <> 429 /\ upstream w (requestUrl r) accessToken = Reply s None) ->
     sent (snd (fetchResource accessToken r w)) =
       (sent w ++ [(requestUrl r, accessToken)])%list /\
     files (snd (fetchResource accessToken r w)) = files w).
Proof.
  intros Hmiss Hno.
  rewrite fetchResource_shape.
  rewrite (cached_fetch_miss _ _ _ _ null w w (getCached_absent _ w Hmiss) eq_refl).
  assert (Hnet : upstream w (requestUrl r) accessToken = NetError ->
                 fetch_upstream (cacheKey r) (requestUrl r) (failureMessage r) accessToken w =
                 (Throw TypeError,
                  set_now (now w + latency w)
                    (set_sent (sent w ++ [(requestUrl r, accessToken)]) w))).
  { intros Hup. unfold fetch_upstream, bind at 1, guardedFetch, bind at 1.
    rewrite (isLockedOut_absent w Hno). unfold open. cbn [locked].
    unfold bind at 1, fetch. cbv beta zeta. rewrite Hup. reflexivity. }
  assert (Hsyn : forall s, upstream w (requestUrl r) accessToken = Reply s None -> s <> 429 ->
                 fetch_upstream (cacheKey r) (requestUrl r) (failureMessage r) accessToken w =
                 (Throw SyntaxError,
                  set_now (now w + latency w)
                    (set_sent (sent w ++ [(requestUrl r, accessToken)]) w))).
  { intros s Hup Hs. unfold fetch_upstream, bind at 1.
    rewrite (guardedFetch_reply _ _ s None w Hno Hup Hs).
    destruct (res_ok (mkResponse s None)); reflexivity. }
  split; [intros s Hup Hs; rewrite (Hsyn s Hup Hs); reflexivity|].
  split; [intros Hup; rewrite (Hnet Hup); reflexivity|].
  intros [Hup | (s & Hs & Hup)];
    [rewrite (Hnet Hup) | rewrite (Hsyn s Hup Hs)]; split; reflexivity.
Qed.

(** What a write leaves on disk: the files as they were, or with the one
    file it writes. *)
Lemma setLockout_files (w : world) :
  files (snd (setLockout w)) = files w \/
  files (snd (setLockout w)) = <[LOCKOUT_FILE := Json (lockout_entry (now w))]> (files w).
Proof.
  unfold setLockout. run_prims. replay.
  destruct (cache_dir w); replay;
    repeat match goal with
           | |- context [if ?b then _ else _] => destruct b; replay
           end; (left; reflexivity) || (right; reflexivity).
Qed.

Lemma setCache_files (key : string) (data : value) (ttlMs : Z) (w : world) :
  files (snd (setCache key data ttlMs w)) = files w \/
  files (snd (setCache key data ttlMs w)) =
    <[getCacheFilePath key := Json (cache_entry data (now w + ttlMs))]> (files w).
Proof.
  unfold setCache. run_prims. replay.
  destruct (cache_dir w); replay;
    repeat match goal with
           | |- context [if ?b then _ else _] => destruct b; replay
           end; (left; reflexivity) || (right; reflexivity).
Qed.

(** After the 429 branch the world is the one [setLockout] left. *)
Lemma guardedFetch_429_world (u : url) (accessToken : string) (r : num) (w w1 : world)
    (b : option json) :
  isLockedOut w = (Ret (mkLockout false r), w1) ->
  upstream w u accessToken = Reply 429 b ->
  snd (guardedFetch u accessToken w) =
  snd (setLockout (set_now (now w1 + latency w1)
                     (set_sent (sent w1 ++ [(u, accessToken)]) w1))).
Proof.
  intros Hg Hup.
  pose proof (isLockedOut_frame w) as Hfr. rewrite Hg in Hfr. cbn [snd] in Hfr.
  destruct Hfr as (_ & Hu & _).
  unfold guardedFetch, bind at 1. rewrite Hg. cbn [locked].
  unfold bind at 1, fetch. cbv beta zeta. rewrite Hu, Hup.
  cbn [res_status Z.eqb Pos.eqb]. unfold bind at 1.
  match goal with |- context [setLockout ?w2] =>
    destruct (setLockout_total w2) as [w3 H3]; rewrite H3
  end.
  run_prims. cbn [res_body snd].
  destruct b as [j|]; cbv beta iota zeta.
  - destruct (get_prop (Val j) "error") as [x|]; [|reflexivity].
    destruct (get_prop_opt x "message"); reflexivity.
  - reflexivity.
Qed.

(** Outside a 429 the world after the call has the files the guard left. *)
Lemma guardedFetch_other_world (u : url) (accessToken : string) (st : lockout_status)
    (w w1 : world) :
  isLockedOut w = (Ret st, w1) ->
  (forall b, upstream w u accessToken <> Reply 429 b) ->
  files (snd (guardedFetch u accessToken w)) = files w1.
Proof.
  intros Hg Hup.
  pose proof (isLockedOut_frame w) as Hfr. rewrite Hg in Hfr. cbn [snd] in Hfr.
  destruct Hfr as (_ & Hu & _).
  destruct st as [[] r].
  - rewrite (guardedFetch_blocked u accessToken r w w1 Hg). reflexivity.
  - unfold guardedFetch, bind at 1. rewrite Hg. cbn [locked].
    unfold bind at 1, fetch. cbv beta zeta. rewrite Hu.
    destruct (upstream w u accessToken) as [|s b] eqn:Hr; [reflexivity|].
    cbn [res_status].
    destruct (Z.eqb_spec s 429) as [->|Hs]; [exfalso; exact (Hup b eq_refl)|].
    reflexivity.
Qed.

Lemma isLockedOut_files (w : world) :
  files (snd (isLockedOut w)) = files w \/
  files (snd (isLockedOut w)) = delete LOCKOUT_FILE (files w).
Proof.
  destruct (isLockedOut_world w) as [-> | ->]; [left | right]; reflexivity.
Qed.

(** No [guardedFetch] touches a file other than the lockout record. *)
Lemma guardedFetch_files_other (u : url) (accessToken : string) (w : world) (p : string) :
  p <> LOCKOUT_FILE ->
  files (snd (guardedFetch u accessToken w)) !! p = files w !! p.
Proof.
  intros Hp.
  destruct (isLockedOut_total w) as (st & w1 & Hg).
  assert (Hp1 : files w1 !! p = files w !! p).
  { pose proof (isLockedOut_files w) as H. rewrite Hg in H. cbn [snd] in H.
    destruct H as [-> | ->]; [reflexivity | apply lookup_delete_ne; congruence]. }
  destruct (upstream w u accessToken) as [|s b] eqn:Hr.
  - rewrite (guardedFetch_other_world u accessToken st w w1 Hg); [exact Hp1|].
    intros b. rewrite Hr. discriminate.
  - destruct (Z.eq_dec s 429) as [->|Hs].
    + destruct st as [[] r].
      * rewrite (guardedFetch_blocked u accessToken r w w1 Hg). exact Hp1.
      * rewrite (guardedFetch_429_world u accessToken r w w1 b Hg Hr).
        match goal with |- context [setLockout ?w2] =>
          destruct (setLockout_files w2) as [-> | ->]
        end; fields; [exact Hp1|].
        rewrite lookup_insert_ne by congruence. exact Hp1.
    + rewrite (guardedFetch_other_world u accessToken st w w1 Hg); [exact Hp1|].
      intros b'. rewrite Hr. congruence.
Qed.

(** X3. The lockout record is written on a 429 and on nothing else: after
    a [guardedFetch] whose upstream answer is not a 429 (a success, another
    error, a network failure, or no request at all because the guard was
    locked), the lockout file is as it was or, if the guard found it
    expired, gone; and no [guardedFetch] ever touches any other file. *)
Theorem lockout_written_only_on_429 (u : url) (accessToken : string) (w : world) :
  let after := files (snd (guardedFetch u accessToken w)) in
  (forall p, p <> LOCKOUT_FILE -> after !! p = files w !! p) /\
  ((forall b, upstream w u accessToken <> Reply 429 b) ->
     after !! LOCKOUT_FILE = files w !! LOCKOUT_FILE \/ after !! LOCKOUT_FILE = None).
Proof.
  cbv zeta. split.
  - intros p Hp. apply guardedFetch_files_other, Hp.
  - intros Hup.
    destruct (isLockedOut_total w) as (st & w1 & Hg).
    rewrite (guardedFetch_other_world u accessToken st w w1 Hg Hup).
    pose proof (isLockedOut_files w) as H. rewrite Hg in H. cbn [snd] in H.
    destruct H as [-> | ->]; [left; reflexivity | right; apply lookup_delete_eq].
Qed.

Lemma storageKey_not_lockout (r : resource) : storageKey r <> LOCKOUT_FILE.
Proof.
  unfold storageKey, getCacheFilePath, LOCKOUT_FILE, path_join. intros H.
  apply (inj (String.app _)), (inj (String.app _)) in H.
  destruct r; vm_compute in H; discriminate H.
Qed.

(** A lookup leaves its own file as it was, or removes it. *)
Lemma getCached_own_file (key : string) (w : world) :
  files (snd (getCached key w)) !! getCacheFilePath key = files w !! getCacheFilePath key \/
  files (snd (getCached key w)) !! getCacheFilePath key = None.
Proof.
  unfold getCached. run_prims. replay.
  destruct (files w !! getCacheFilePath key) as [t|] eqn:Hf; replay;
    [|left; reflexivity].
  destruct (fault w OpRead (getCacheFilePath key)) eqn:Hrd; replay;
    [left; reflexivity|].
  destruct t as [raw|j]; replay; [left; reflexivity|].
  destruct (fault w OpUnlink (getCacheFilePath key)) eqn:Hun;
    destruct j; replay; try (left; reflexivity);
    match goal with
    | |- context [if ?b then _ else _] => destruct b; replay
    end; first [left; reflexivity | right; apply lookup_delete_eq].
Qed.

(** X4. Cache and lockout keep to their own files. No fetcher's cache file
    is the lockout file; caching or looking up a resource never changes the
    lockout record, and tripping or checking the lockout never changes a
    cached resource. *)
Theorem cache_and_lockout_are_separate (r : resource) (data : value) (ttlMs : Z)
    (w : world) :
  storageKey r <> LOCKOUT_FILE /\
  files (snd (setCache (cacheKey r) data ttlMs w)) !! LOCKOUT_FILE =
    files w !! LOCKOUT_FILE /\
  files (snd (getCached (cacheKey r) w)) !! LOCKOUT_FILE = files w !! LOCKOUT_FILE /\
  files (snd (setLockout w)) !! storageKey r = files w !! storageKey r /\
  files (snd (isLockedOut w)) !! storageKey r = files w !! storageKey r.
Proof.
  pose proof (storageKey_not_lockout r) as Hne. unfold storageKey in *.
  split; [exact Hne|]. split; [|split; [|split]].
  - destruct (setCache_files (cacheKey r) data ttlMs w) as [-> | ->]; [reflexivity|].
    apply lookup_insert_ne. exact Hne.
  - destruct (getCached_frame (cacheKey r) w) as (_ & _ & _ & _ & _ & _ & H).
    apply H. congruence.
  - destruct (setLockout_files w) as [-> | ->]; [reflexivity|].
    apply lookup_insert_ne. congruence.
  - destruct (isLockedOut_world w) as [-> | ->]; [reflexivity|].
    fields. apply lookup_delete_ne. congruence.
Qed.

(** X5. A fetcher that fails caches nothing: whenever [fetchAccounts],
    [fetchLocations] or [fetchReviews] throws (a blocked call, a 429, an
    upstream error, an unreadable answer), the resource's cache file is as it
    was or, if the lookup found it stale, gone; it is never written. *)
Theorem failed_fetch_caches_nothing (accessToken : string) (r : resource) (e : exn)
    (w : world) :
  fst (fetchResource accessToken r w) = Throw e ->
  files (snd (fetchResource accessToken r w)) !! storageKey r = files w !! storageKey r \/
  files (snd (fetchResource accessToken r w)) !! storageKey r = None.
Proof.
  rewrite fetchResource_shape. unfold storageKey.
  pose proof (getCached_own_file (cacheKey r) w) as Hown.
  destruct (getCached_total (cacheKey r) w) as (c & w1 & Hc).
  rewrite Hc in Hown. cbn [snd] in Hown.
  assert (Hkeep : forall w2,
             files w2 !! getCacheFilePath (cacheKey r) =
               files w1 !! getCacheFilePath (cacheKey r) ->
             files w2 !! getCacheFilePath (cacheKey r) =
               files w !! getCacheFilePath (cacheKey r) \/
             files w2 !! getCacheFilePath (cacheKey r) = None).
  { intros w2 ->. exact Hown. }
  destruct (truthy c) eqn:Ht.
  - rewrite (cached_fetch_hit _ _ _ _ c w w1 Hc Ht). discriminate.
  - rewrite (cached_fetch_miss _ _ _ _ c w w1 Hc Ht).
    pose proof (guardedFetch_files_other (requestUrl r) accessToken w1
                  (getCacheFilePath (cacheKey r)) (storageKey_not_lockout r)) as Hg.
    unfold fetch_upstream, bind.
    destruct (guardedFetch (requestUrl r) accessToken w1) as [[res|e'] w2];
      cbn [snd] in Hg; [|intros _; apply Hkeep, Hg].
    unfold res_json.
    destruct (res_ok res), (res_body res) as [j|]; cbn [negb]; unfold ret, throw;
      try (intros _; apply Hkeep, Hg).
    + destruct (setCache_total (cacheKey r) (Val j) CACHE_TTL w2) as [w3 H3].
      rewrite H3. discriminate.
    + cbv beta iota zeta. intros _.
      rewrite throw_upstream_error_frame. apply Hkeep, Hg.
Qed.

(** A successful answer on working storage: the payload is returned and
    stored with the default TTL, counted from the time the answer arrived. *)
Lemma fetch_upstream_caches (key : string) (u : url) (fallback accessToken : string)
    (s : Z) (j : json) (w : world) :
  files w !! LOCKOUT_FILE = None ->
  upstream w u accessToken = Reply s (Some j) ->
  200 <= s <= 299 ->
  fault w OpMkdir CACHE_DIR = false ->
  fault w OpWrite (getCacheFilePath key) = false ->
  fetch_upstream key u fallback accessToken w =
    (Ret (Val j),
     set_console (console w ++ [LogCacheSet key CACHE_TTL])
       (set_files
          (<[getCacheFilePath key :=
               Json (cache_entry (Val j) (now w + latency w + CACHE_TTL))]> (files w))
          (set_cache_dir true
             (set_now (now w + latency w) (set_sent (sent w ++ [(u, accessToken)]) w))))).
Proof.
  intros Hno Hup Hs Hmk Hwr.
  unfold fetch_upstream, bind at 1.
  rewrite (guardedFetch_reply u accessToken s (Some j) w Hno Hup) by lia.
  rewrite (res_ok_true s (Some j) Hs). cbn [negb].
  unfold bind at 1, res_json. cbn [res_body]. unfold ret at 1. unfold bind at 1.
  rewrite setCache_run by (fields; assumption).
  reflexivity.
Qed.

(** X6. A fetched resource is served from the cache to every caller. After
    a fetch that missed, got a success with a truthy payload and could store
    it, any later call for the same resource, made with any access token at
    any time up to ten minutes after the answer arrived and finding the
    record still readable, returns that payload and changes nothing but the
    console: no request is sent, whoever asks. *)
Theorem fetch_then_hit (accessToken accessToken' : string) (r : resource) (s : Z)
    (j : json) (w w2 : world) :
  storage_ok w (storageKey r) ->
  files w !! storageKey r = None ->
  files w !! LOCKOUT_FILE = None ->
  upstream w (requestUrl r) accessToken = Reply s (Some j) ->
  200 <= s <= 299 ->
  truthy (Val j) = true ->
  let w1 := snd (fetchResource accessToken r w) in
  fst (fetchResource accessToken r w) = Ret (Val j) /\
  now w1 = now w + latency w /\
  (files w2 !! storageKey r = files w1 !! storageKey r ->
   fault w2 OpRead (storageKey r) = false ->
   now w2 <= now w1 + 10 * 60 * 1000 ->
   fetchResource accessToken' r w2 =
     (Ret (Val j), set_console (console w2 ++ [LogCacheHit (cacheKey r)]) w2)).
Proof.
  intros (Hmk & Hwr & Hrd & Hun) Hmiss Hno Hup Hs Ht. cbv zeta.
  unfold storageKey in *.
  assert (Hrun : fetchResource accessToken r w =
                 fetch_upstream (cacheKey r) (requestUrl r) (failureMessage r) accessToken w).
  { rewrite fetchResource_shape.
    exact (cached_fetch_miss _ _ _ _ null w w (getCached_absent _ w Hmiss) eq_refl). }
  rewrite Hrun, (fetch_upstream_caches _ _ _ _ s j w Hno Hup Hs Hmk Hwr).
  cbn [fst snd]. fields.
  split; [reflexivity|]. split; [reflexivity|].
  rewrite lookup_insert_eq. intros Hf Hrd2 Hnow.
  rewrite fetchResource_shape.
  apply cached_fetch_hit; [|exact Ht].
  unfold cache_entry in Hf.
  rewrite (getCached_fresh (cacheKey r) _ w2 Hf Hrd2).
  - reflexivity.
  - change (obj_get ([("data", j)] ++ [("expiry", JNum (now w + latency w + CACHE_TTL))])
              "expiry") with (Val (JNum (now w + latency w + CACHE_TTL))).
    cbn [ToNumber num_gt]. apply Z.ltb_ge. unfold CACHE_TTL. lia.
Qed.

(** X7. The lockout lasts one minute from the 429 and no longer. After a
    [guardedFetch] that got a 429 and could write the record, every
    [guardedFetch], for any URL and token, made less than 60 000 ms after
    the answer arrived is refused with a 429 [ApiError] whose [retryAfter]
    is between 1 and 60, and sends nothing; the first one made 60 000 ms or
    more after it sends its request. *)
Theorem lockout_lasts_one_minute (u u' : url) (accessToken accessToken' : string)
    (r : num) (b : option json) (d : Z) (w w1 : world) :
  isLockedOut w = (Ret (mkLockout false r), w1) ->
  upstream w u accessToken = Reply 429 b ->
  fault w OpMkdir CACHE_DIR = false ->
  fault w OpWrite LOCKOUT_FILE = false ->
  fault w OpRead LOCKOUT_FILE = false ->
  fault w OpUnlink LOCKOUT_FILE = false ->
  0 <= d ->
  let w2 := advance d (snd (guardedFetch u accessToken w)) in
  (d < 60 * 1000 ->
     exists secs,
       1 <= secs <= 60 /\
       fst (guardedFetch u' accessToken' w2) =
         Throw (ApiError (blocked_message (Fin secs)) 429 (Fin secs)) /\
       sent (snd (guardedFetch u' accessToken' w2)) = sent w2) /\
  (60 * 1000 <= d ->
     sent (snd (guardedFetch u' accessToken' w2)) =
       (sent w2 ++ [(u', accessToken')])%list).
Proof.
  intros Hg Hup Hmk Hwr Hrd Hun Hd. cbv zeta.
  pose proof (isLockedOut_frame w) as Hfr. rewrite Hg in Hfr. cbn [snd] in Hfr.
  destruct Hfr as (Hfa & _).
  rewrite (guardedFetch_429_world u accessToken r w w1 b Hg Hup).
  rewrite setLockout_run by (fields; rewrite Hfa; assumption).
  cbn [snd]. fields.
  set (t := now w1 + latency w1).
  set (w2 := advance d _).
  assert (Hf : files w2 !! LOCKOUT_FILE = Some (Json (lockout_entry t)))
    by apply lookup_insert_eq.
  assert (Hrd2 : fault w2 OpRead LOCKOUT_FILE = false) by (cbn; rewrite Hfa; exact Hrd).
  assert (Hun2 : fault w2 OpUnlink LOCKOUT_FILE = false) by (cbn; rewrite Hfa; exact Hun).
  assert (Hnow : now w2 = t + d) by reflexivity.
  unfold lockout_entry in Hf.
  split.
  - intros Hlt.
    assert (Hlocked : now w2 < t + LOCKOUT_TTL) by (unfold LOCKOUT_TTL; lia).
    pose proof (isLockedOut_tripped _ (t + LOCKOUT_TTL) w2 Hf Hrd2 eq_refl Hlocked) as Hl.
    destruct (ceil_div_1000_spec (t + LOCKOUT_TTL - now w2)) as (secs & Hq & Hb).
    rewrite Hq in Hl.
    exists secs. split; [unfold LOCKOUT_TTL in Hb; lia|].
    rewrite (guardedFetch_blocked u' accessToken' (Fin secs) w2 w2 Hl).
    split; reflexivity.
  - intros Hge.
    assert (Hexp : t + LOCKOUT_TTL <= now w2) by (unfold LOCKOUT_TTL; lia).
    pose proof (isLockedOut_expired _ (t + LOCKOUT_TTL) w2 Hf Hrd2 Hun2 eq_refl Hexp) as Hl.
    exact (guardedFetch_open_sent u' accessToken' (Fin 0) w2 _ Hl).
Qed.

(** X8. A cache record that has no [expiry] never expires: the comparison
    with [undefined] is false at every time, so the lookup returns the
    record's payload however late it is made, and never removes the file. *)
Theorem entry_without_expiry_never_expires (key : string)
    (fields : list (string * json)) (d : Z) (w : world) :
  files w !! getCacheFilePath key = Some (Json (JObj fields)) ->
  obj_get fields "expiry" = Undefined ->
  fault w OpRead (getCacheFilePath key) = false ->
  getCached key (advance d w) =
    (Ret (obj_get fields "data"),
     set_console (console w ++ [LogCacheHit key]) (advance d w)).
Proof.
  intros Hf Hexp Hrd.
  apply (getCached_fresh key fields (advance d w)); [exact Hf | exact Hrd |].
  rewrite Hexp. reflexivity.
Qed.

(** X9. A lockout record that has no [expiry] locks for ever: the remaining
    time is [NaN], which is not [<= 0], so at every later time the guard
    reports locked, keeps the file, and [guardedFetch] refuses every call
    with a 429 whose [retryAfter] is [NaN], sending nothing. *)
Theorem lockout_without_expiry_is_permanent (u : url) (accessToken : string)
    (fields : list (string * json)) (d : Z) (w : world) :
  files w !! LOCKOUT_FILE = Some (Json (JObj fields)) ->
  obj_get fields "expiry" = Undefined ->
  fault w OpRead LOCKOUT_FILE = false ->
  isLockedOut (advance d w) = (Ret (mkLockout true NaN), advance d w) /\
  guardedFetch u accessToken (advance d w) =
    (Throw (ApiError "Rate limit active. Please wait NaN seconds." 429 NaN),
     set_console (console w ++ [LogBlocked NaN]) (advance d w)).
Proof.
  intros Hf Hexp Hrd.
  assert (Hl : isLockedOut (advance d w) = (Ret (mkLockout true NaN), advance d w)).
  { unfold isLockedOut. run_prims. replay. reflexivity. }
  split; [exact Hl|].
  rewrite (guardedFetch_blocked u accessToken NaN _ _ Hl). reflexivity.
Qed.

(** ** Beyond the claims: the route handlers *)

(** What a route answers when its fetcher threw [err]. *)
Definition error_response (c : api_call) (err : exn) : handled :=
  let line := error_label c ++ err_message err in
  if bool_decide (err_statusCode err = Some 429) then
    mkHandled (mkHttp 429 (quota_body err (fallback_retry c)))
              (match c with GET_accounts => [] | _ => [line] end)
  else
    mkHandled
      (mkHttp 500
         (JObj [("error", JStr (str_or (err_message err)
                                  (match c with
                                   | GET_accounts => "Failed to fetch accounts"
                                   | GET_locations _ => "Failed to fetch locations"
                                   | GET_reviews _ _ _ => "Failed to fetch reviews"
                                   end)))]))
      [line].

(** The guarded part of a route, around its fetcher. *)
Definition answer (c : api_call) (fetcher : M value) : M handled :=
  try_catch
    (let! data := fetcher in
     let! res := NextResponse_json data 200 in
     ret (mkHandled res []))
    (fun err => ret (error_response c err)).

Lemma route_shape (accessToken : string) (c : api_call) (r : resource) (w : world) :
  accessToken <> "" ->
  resource_of c = Some r ->
  route (Some accessToken) c w = answer c (fetchResource accessToken r) w.
Proof.
  intros Htok Hr.
  assert (Hne : String.eqb accessToken "" = false) by (apply String.eqb_neq; exact Htok).
  assert (Hcatch : forall (fetcher : M value) (h429 h500 : exn -> handled) (c' : api_call),
             (forall err, error_response c' err =
                          if bool_decide (err_statusCode err = Some 429)
                          then h429 err else h500 err) ->
             try_catch
               (let! data := fetcher in
                let! res := NextResponse_json data 200 in
                ret (mkHandled res []))
               (fun err => if bool_decide (err_statusCode err = Some 429)
                           then ret (h429 err) else ret (h500 err)) w =
             answer c' fetcher w).
  { intros fetcher h429 h500 c' Hresp. unfold answer, try_catch.
    destruct (bind fetcher _ w) as [[h|e] w']; [reflexivity|].
    rewrite Hresp. destruct (bool_decide _); reflexivity. }
  destruct c as [|a|a l p]; cbn [route resource_of] in *.
  - injection Hr as <-. unfold accounts_GET. change (default "" (Some accessToken)) with accessToken. rewrite Hne.
    apply (Hcatch _ (fun err => mkHandled (mkHttp 429 (quota_body err 120)) []) _ GET_accounts).
    intros err. unfold error_response. destruct (bool_decide _); reflexivity.
  - unfold locations_GET. change (default "" (Some accessToken)) with accessToken. rewrite Hne.
    destruct (String.eqb (default "" a) ""); [discriminate|].
    injection Hr as <-.
    apply (Hcatch _ (fun err => mkHandled (mkHttp 429 (quota_body err 60))
                                  ["Locations fetch error: " ++ err_message err])
             _ (GET_locations a)).
    intros err. unfold error_response. destruct (bool_decide _); reflexivity.
  - unfold reviews_GET. change (default "" (Some accessToken)) with accessToken. rewrite Hne.
    destruct (String.eqb (default "" a) "" || String.eqb (default "" l) "")%bool;
      [discriminate|].
    injection Hr as <-.
    apply (Hcatch _ (fun err => mkHandled (mkHttp 429 (quota_body err 60))
                                  ["Reviews fetch error: " ++ err_message err])
             _ (GET_reviews a l p)).
    intros err. unfold error_response. destruct (bool_decide _); reflexivity.
Qed.

Lemma answer_ok (c : api_call) (fetcher : M value) (j : json) (w w' : world) :
  fetcher w = (Ret (Val j), w') ->
  answer c fetcher w = (Ret (mkHandled (mkHttp 200 j) []), w').
Proof.
  intros H. unfold answer, try_catch, bind. rewrite H. reflexivity.
Qed.

Lemma answer_error (c : api_call) (fetcher : M value) (e : exn) (w w' : world) :
  fetcher w = (Throw e, w') ->
  answer c fetcher w = (Ret (error_response c e), w').
Proof.
  intros H. unfold answer, try_catch, bind. rewrite H. reflexivity.
Qed.

Lemma error_response_status (c : api_call) (e : exn) :
  http_status (response (error_response c e)) = 429 \/
  http_status (response (error_response c e)) = 500.
Proof.
  unfold error_response. destruct (bool_decide _); [left | right]; reflexivity.
Qed.

(** A fetcher sends at most one request: its own. *)
Lemma fetchResource_sent (accessToken : string) (r : resource) (w : world) :
  sent (snd (fetchResource accessToken r w)) = sent w \/
  sent (snd (fetchResource accessToken r w)) =
    (sent w ++ [(requestUrl r, accessToken)])%list.
Proof.
  rewrite fetchResource_shape. unfold cached_fetch, bind.
  pose proof (getCached_frame (cacheKey r) w) as Hfr.
  destruct (getCached_total (cacheKey r) w) as (c & w1 & Hc).
  rewrite Hc in Hfr |- *. cbn [snd] in Hfr.
  destruct Hfr as (_ & _ & _ & _ & Hs & _).
  destruct (truthy c); [left; exact Hs|].
  fold (bind (A := Response) (B := value)).
  change (sent (snd (fetch_upstream (cacheKey r) (requestUrl r) (failureMessage r)
                       accessToken w1)) = sent w \/
          sent (snd (fetch_upstream (cacheKey r) (requestUrl r) (failureMessage r)
                       accessToken w1)) = (sent w ++ [(requestUrl r, accessToken)])%list).
  rewrite fetch_upstream_sent, <- Hs.
  destruct (isLockedOut_total w1) as ([[] rr] & w2 & Hg).
  - left. rewrite (guardedFetch_blocked _ _ rr w1 w2 Hg). cbn [snd]. fields.
    pose proof (isLockedOut_frame w1) as H. rewrite Hg in H. cbn [snd] in H. tauto.
  - right. exact (guardedFetch_open_sent _ _ rr w1 w2 Hg).
Qed.

(** X10. A route turns every failure into an answer. Whatever the cookie,
    the parameters, the files and the upstream do, a route handler returns a
    response whose status is 200, 400, 401, 429 or 500, and it has sent
    either nothing or the one request of the resource asked for, with the
    caller's token. *)
Theorem routes_never_throw (cookie : option string) (c : api_call) (w : world) :
  exists h w',
    route cookie c w = (Ret h, w') /\
    In (http_status (response h)) [200; 400; 401; 429; 500] /\
    (sent w' = sent w \/
     exists accessToken r,
       cookie = Some accessToken /\ resource_of c = Some r /\
       sent w' = (sent w ++ [(requestUrl r, accessToken)])%list).
Proof.
  destruct (String.eqb_spec (default "" cookie) "") as [Hc|Hc].
  { exists (mkHandled not_authenticated []), w. split; [|split; [cbn; tauto | left; reflexivity]].
    destruct c; cbn [route]; unfold accounts_GET, locations_GET, reviews_GET;
      rewrite Hc; reflexivity. }
  destruct cookie as [tok|]; [|contradiction Hc; reflexivity].
  change (default "" (Some tok)) with tok in Hc.
  destruct (resource_of c) as [r|] eqn:Hr.
  - rewrite (route_shape tok c r w Hc Hr).
    pose proof (fetchResource_sent tok r w) as Hs.
    destruct (fetchResource tok r w) as [[[|j]|e] w1] eqn:Hf; cbn [snd] in Hs.
    + exists (error_response c TypeError), w1. split.
      * unfold answer, try_catch, bind. rewrite Hf. reflexivity.
      * split; [cbn; tauto|].
        destruct Hs as [Hs|Hs]; [left; exact Hs | right; eauto].
    + exists (mkHandled (mkHttp 200 j) []), w1. split; [exact (answer_ok c _ j w w1 Hf)|].
      split; [cbn; tauto|].
      destruct Hs as [Hs|Hs]; [left; exact Hs | right; eauto].
    + exists (error_response c e), w1. split; [exact (answer_error c _ e w w1 Hf)|].
      split.
      * destruct (error_response_status c e) as [-> | ->]; cbn; tauto.
      * destruct Hs as [Hs|Hs]; [left; exact Hs | right; eauto].
  - assert (Hne : String.eqb tok "" = false) by (apply String.eqb_neq; exact Hc).
    destruct c as [|a|a l p]; cbn [route resource_of] in *; [discriminate| |].
    + unfold locations_GET. change (default "" (Some tok)) with tok. rewrite Hne.
      destruct (String.eqb (default "" a) ""); [|discriminate].
      eexists _, w. split; [reflexivity|]. split; [cbn; tauto | left; reflexivity].
    + unfold reviews_GET. change (default "" (Some tok)) with tok. rewrite Hne.
      destruct (String.eqb (default "" a) "" || String.eqb (default "" l) "")%bool;
        [|discriminate].
      eexists _, w. split; [reflexivity|]. split; [cbn; tauto | left; reflexivity].
Qed.

Lemma fetch_upstream_throws (key : string) (u : url) (fallback accessToken : string)
    (e : exn) (w : world) :
  fst (guardedFetch u accessToken w) = Throw e ->
  fetch_upstream key u fallback accessToken w =
    (Throw e, snd (guardedFetch u accessToken w)).
Proof.
  intros H. unfold fetch_upstream, bind at 1.
  destruct (guardedFetch u accessToken w) as [o w']. cbn [fst snd] in *. subst o.
  reflexivity.
Qed.

Lemma fetchResource_miss (accessToken : string) (r : resource) (w : world) :
  files w !! storageKey r = None ->
  fetchResource accessToken r w =
  fetch_upstream (cacheKey r) (requestUrl r) (failureMessage r) accessToken w.
Proof.
  intros Hmiss. rewrite fetchResource_shape.
  exact (cached_fetch_miss _ _ _ _ null w w (getCached_absent _ w Hmiss) eq_refl).
Qed.

(** X11. A route looks at the cookie and the parameters before anything
    else: without an access token it answers 401, and with one but without
    the ids it needs it answers 400, in both cases leaving the world as it
    was: no cache file read, no lockout check, no request. *)
Theorem routes_reject_before_fetching (cookie : option string) (c : api_call) (w : world) :
  (default "" cookie = "" ->
     route cookie c w = (Ret (mkHandled not_authenticated []), w)) /\
  (default "" cookie <> "" -> resource_of c = None ->
     exists msg,
       route cookie c w =
         (Ret (mkHandled (mkHttp 400 (JObj [("error", JStr msg)])) []), w)).
Proof.
  split.
  - intros Hc.
    destruct c; cbn [route]; unfold accounts_GET, locations_GET, reviews_GET;
      rewrite Hc; reflexivity.
  - intros Hc Hr.
    assert (Hne : String.eqb (default "" cookie) "" = false)
      by (apply String.eqb_neq; exact Hc).
    destruct c as [|a|a l p]; cbn [route resource_of] in *; [discriminate| |].
    + unfold locations_GET. rewrite Hne.
      destruct (String.eqb (default "" a) ""); [|discriminate].
      eexists. reflexivity.
    + unfold reviews_GET. rewrite Hne.
      destruct (String.eqb (default "" a) "" || String.eqb (default "" l) "")%bool;
        [|discriminate].
      eexists. reflexivity.
Qed.

(** X12. Under a tripped lockout a route whose resource is not cached
    answers 429 with the guard's message and the remaining cool-down,
    [ceil((e - now) / 1000)] seconds, as [retryAfter], and sends nothing;
    the fallback of 60 (120 for the accounts) is not used. *)
Theorem route_reports_lockout (accessToken : string) (c : api_call) (r : resource)
    (e : Z) (w : world) :
  accessToken <> "" ->
  resource_of c = Some r ->
  files w !! storageKey r = None ->
  lockout_record w e ->
  now w < e ->
  exists secs h,
    1000 * (secs - 1) < e - now w <= 1000 * secs /\
    fst (route (Some accessToken) c w) = Ret h /\
    response h =
      mkHttp 429 (JObj [("error", JStr (blocked_message (Fin secs)));
                        ("retryAfter", JNum secs)]) /\
    sent (snd (route (Some accessToken) c w)) = sent w.
Proof.
  intros Htok Hr Hmiss (fields & Hf & Hexp & Hrd) Hlt.
  destruct (ceil_div_1000_spec (e - now w)) as (secs & Hq & Hb).
  pose proof (isLockedOut_tripped fields e w Hf Hrd Hexp Hlt) as Hg. rewrite Hq in Hg.
  assert (Hrun : fetchResource accessToken r w =
                 (Throw (ApiError (blocked_message (Fin secs)) 429 (Fin secs)),
                  set_console (console w ++ [LogBlocked (Fin secs)]) w)).
  { rewrite (fetchResource_miss _ _ _ Hmiss).
    exact (fetch_upstream_blocked _ _ _ _ _ _ _ Hg). }
  exists secs, (error_response c (ApiError (blocked_message (Fin secs)) 429 (Fin secs))).
  rewrite (route_shape accessToken c r w Htok Hr), (answer_error c _ _ w _ Hrun).
  split; [exact Hb|]. split; [reflexivity|]. split; [|reflexivity].
  unfold error_response, quota_body. cbn [err_statusCode err_message err_retryAfter_or].
  rewrite bool_decide_eq_true_2 by reflexivity.
  destruct (Z.eqb_spec secs 0) as [E|_]; [lia|].
  destruct c; reflexivity.
Qed.

(** X13. When the upstream itself answers 429 (guard open, nothing cached,
    body other than [null]) every route answers 429 with [retryAfter] 60 and
    the message [guardedFetch] chose: the upstream's when truthy, the
    generic one otherwise. *)
Theorem route_reports_upstream_429 (accessToken : string) (c : api_call) (r : resource)
    (b : option json) (err m : value) (w : world) :
  accessToken <> "" ->
  resource_of c = Some r ->
  files w !! storageKey r = None ->
  files w !! LOCKOUT_FILE = None ->
  upstream w (requestUrl r) accessToken = Reply 429 b ->
  get_prop (body_of b) "error" = Ret err ->
  get_prop_opt err "message" = Ret m ->
  exists h,
    fst (route (Some accessToken) c w) = Ret h /\
    response h =
      mkHttp 429
        (JObj [("error", JStr (ToString (or_else m (Val (JStr exceeded_message)))));
               ("retryAfter", JNum 60)]).
Proof.
  intros Htok Hr Hmiss Hno Hup Herr Hm.
  pose proof (guardedFetch_429_throws _ _ _ w w b err m (isLockedOut_absent w Hno)
                Hup Herr Hm) as Hthrow.
  pose proof (fetch_upstream_throws (cacheKey r) _ (failureMessage r) _ _ w Hthrow) as Hrun.
  rewrite <- (fetchResource_miss _ _ _ Hmiss) in Hrun.
  eexists.
  rewrite (route_shape accessToken c r w Htok Hr), (answer_error c _ _ w _ Hrun).
  split; [reflexivity|].
  unfold error_response, quota_body. cbn [err_statusCode err_message err_retryAfter_or].
  rewrite bool_decide_eq_true_2 by reflexivity.
  destruct c; reflexivity.
Qed.

(** X14. An upstream error that is not a 429 (guard open, nothing cached,
    JSON body other than [null]) is answered with status 500; the [error]
    field carries the fetcher's message, or the route's fallback text when
    that message is empty, and the route writes one line to the error
    console. *)
Theorem route_reports_upstream_error (accessToken : string) (c : api_call)
    (r : resource) (s : Z) (body : json) (err m : value) (w : world) :
  accessToken <> "" ->
  resource_of c = Some r ->
  files w !! storageKey r = None ->
  files w !! LOCKOUT_FILE = None ->
  upstream w (requestUrl r) accessToken = Reply s (Some body) ->
  s <> 429 -> ~ (200 <= s <= 299) ->
  get_prop (Val body) "error" = Ret err ->
  get_prop_opt err "message" = Ret m ->
  let msg := ToString (or_else m (Val (JStr (failureMessage r)))) in
  fst (route (Some accessToken) c w) =
    Ret (mkHandled
           (mkHttp 500 (JObj [("error", JStr (str_or msg (failureMessage r)))]))
           [error_label c ++ msg]).
Proof.
  intros Htok Hr Hmiss Hno Hup Hs Hnok Herr Hm. cbv zeta.
  rewrite (route_shape accessToken c r w Htok Hr).
  rewrite (answer_error c _ _ w _
             (fetchResource_upstream_error accessToken r s body err m w
                Hmiss Hno Hup Hs Hnok Herr Hm)).
  cbn [fst]. unfold error_response. cbn [err_statusCode err_message].
  rewrite bool_decide_eq_false_2 by discriminate.
  destruct c as [|a|a l p]; cbn [resource_of] in Hr.
  - injection Hr as <-. reflexivity.
  - destruct (String.eqb (default "" a) ""); [discriminate|]. injection Hr as <-.
    reflexivity.
  - destruct (String.eqb (default "" a) "" || String.eqb (default "" l) "")%bool;
      [discriminate|].
    injection Hr as <-. reflexivity.
Qed.

(** X15. A route answers 200 with the payload itself: the cached one when
    the resource has a fresh truthy record, whatever the lockout says and
    without any request, and the upstream's when the resource is not
    cached, the guard is open and the upstream answers with a success. *)
Theorem route_returns_payload (accessToken : string) (c : api_call) (r : resource)
    (w : world) :
  accessToken <> "" ->
  resource_of c = Some r ->
  (forall j e,
     cache_record w (cacheKey r) (Val j) e -> now w <= e -> truthy (Val j) = true ->
     route (Some accessToken) c w =
       (Ret (mkHandled (mkHttp 200 j) []),
        set_console (console w ++ [LogCacheHit (cacheKey r)]) w)) /\
  (forall s j,
     files w !! storageKey r = None -> files w !! LOCKOUT_FILE = None ->
     upstream w (requestUrl r) accessToken = Reply s (Some j) -> 200 <= s <= 299 ->
     fst (route (Some accessToken) c w) = Ret (mkHandled (mkHttp 200 j) [])).
Proof.
  intros Htok Hr. split.
  - intros j e (fields & Hf & Hdata & Hexp & Hrd) Hle Ht.
    rewrite (route_shape accessToken c r w Htok Hr).
    apply answer_ok. rewrite fetchResource_shape.
    apply cached_fetch_hit; [|exact Ht].
    rewrite <- Hdata. apply getCached_fresh; [exact Hf | exact Hrd |].
    rewrite Hexp. cbn [ToNumber num_gt]. apply Z.ltb_ge. lia.
  - intros s j Hmiss Hno Hup Hs.
    rewrite (route_shape accessToken c r w Htok Hr).
    pose proof (fetch_upstream_success (cacheKey r) (requestUrl r) (failureMessage r)
                  accessToken (Fin 0) w w s j (isLockedOut_absent w Hno) Hup Hs) as Hrun.
    rewrite <- (fetchResource_miss _ _ _ Hmiss) in Hrun.
    destruct (fetchResource accessToken r w) as [o w1] eqn:Hfetch.
    cbn [fst] in Hrun. subst o.
    rewrite (answer_ok c _ j w w1 Hfetch). reflexivity.
Qed.

(** X21. A 429 whose body is the JSON literal [null] is not reported as a
    quota error: [guardedFetch] still writes the lockout record, but reading
    [body.error] raises a [TypeError], which is what it throws; the route
    then answers 500, not 429, although the lockout is now tripped. *)
Theorem quota_answer_with_null_body (accessToken : string) (c : api_call) (r : resource)
    (w : world) :
  accessToken <> "" ->
  resource_of c = Some r ->
  files w !! storageKey r = None ->
  files w !! LOCKOUT_FILE = None ->
  upstream w (requestUrl r) accessToken = Reply 429 (Some JNull) ->
  fault w OpMkdir CACHE_DIR = false ->
  fault w OpWrite LOCKOUT_FILE = false ->
  let w' := snd (guardedFetch (requestUrl r) accessToken w) in
  fst (guardedFetch (requestUrl r) accessToken w) = Throw TypeError /\
  expiry_of <$> files w' !! LOCKOUT_FILE =
    Some (Val (JNum (now w + latency w + 60 * 1000))) /\
  exists h,
    fst (route (Some accessToken) c w) = Ret h /\
    http_status (response h) = 500.
Proof.
  intros Htok Hr Hmiss Hno Hup Hmk Hwr. cbv zeta.
  assert (Hrun : guardedFetch (requestUrl r) accessToken w =
                 (Throw TypeError,
                  set_console (console w ++ [LogLockout])
                    (set_files
                       (<[LOCKOUT_FILE := Json (lockout_entry (now w + latency w))]> (files w))
                       (set_cache_dir true
                          (set_now (now w + latency w)
                             (set_sent (sent w ++ [(requestUrl r, accessToken)]) w)))))).
  { unfold guardedFetch, bind at 1. rewrite (isLockedOut_absent w Hno).
    unfold open. cbn [locked].
    unfold bind at 1, fetch. cbv beta zeta. rewrite Hup.
    cbn [res_status Z.eqb Pos.eqb]. unfold bind at 1.
    rewrite setLockout_run by (fields; assumption).
    reflexivity. }
  rewrite Hrun. cbn [fst snd]. fields.
  split; [reflexivity|]. split; [rewrite lookup_insert_eq; reflexivity|].
  pose proof (fetch_upstream_throws (cacheKey r) (requestUrl r) (failureMessage r)
                accessToken TypeError w) as Hf.
  rewrite Hrun in Hf. specialize (Hf eq_refl).
  rewrite <- (fetchResource_miss _ _ _ Hmiss) in Hf.
  exists (error_response c TypeError).
  rewrite (route_shape accessToken c r w Htok Hr), (answer_error c _ _ w _ Hf).
  split; reflexivity.
Qed.

End Google.

(** ** Facts about cache keys *)

Lemma append_cons (c : ascii) (s t : string) : String c s ++ t = String c (s ++ t).
Proof. reflexivity. Qed.

Lemma append_nil (t : string) : "" ++ t = t.
Proof. reflexivity. Qed.

Lemma length_append (s t : string) :
  String.length (s ++ t) = (String.length s + String.length t)%nat.
Proof.
  induction s as [|c s IH]; [reflexivity|].
  rewrite append_cons. cbn [String.length]. rewrite IH. reflexivity.
Qed.

Lemma append_inv_tail (s1 s2 t : string) : s1 ++ t = s2 ++ t -> s1 = s2.
Proof.
  revert s2. induction s1 as [|c s1 IH]; intros [|c' s2] H.
  - reflexivity.
  - apply (f_equal String.length) in H.
    rewrite append_nil, append_cons in H. cbn [String.length] in H.
    rewrite length_append in H. lia.
  - apply (f_equal String.length) in H.
    rewrite append_nil, append_cons in H. cbn [String.length] in H.
    rewrite length_append in H. lia.
  - rewrite !append_cons in H. injection H as -> H. f_equal. apply IH, H.
Qed.

Lemma string_map_append (f : ascii -> ascii) (s t : string) :
  string_map f (s ++ t) = string_map f s ++ string_map f t.
Proof.
  induction s as [|c s IH]; [reflexivity|].
  rewrite append_cons. cbn [string_map]. rewrite IH, append_cons. reflexivity.
Qed.

Lemma sanitize_append (s t : string) : sanitize (s ++ t) = sanitize s ++ sanitize t.
Proof. apply string_map_append. Qed.

Lemma sanitize_safe (s : string) : string_forall safe_char s = true -> sanitize s = s.
Proof.
  induction s as [|c s IH]; [reflexivity|].
  cbn [string_forall]. intros H. apply andb_true_iff in H as [Hc Hs].
  unfold sanitize in *. cbn [string_map]. rewrite Hc, (IH Hs). reflexivity.
Qed.

Lemma id_char_cases (c : ascii) :
  id_char c = true ->
  (c = "/"%char) \/ (safe_char c = true /\ c <> "_"%char /\ c <> "/"%char).
Proof.
  unfold id_char. intros H.
  destruct (Ascii.eqb_spec c "/") as [E|Hs]; [left; exact E|].
  right. rewrite orb_false_r in H. apply andb_true_iff in H as [H1 H2].
  repeat split; [exact H1 | | exact Hs].
  intros E. rewrite E in H2. discriminate.
Qed.

(** On an id, replacing slashes yields a name the sanitizer keeps. *)
Lemma sanitize_id (a : string) :
  id_ok a = true -> sanitize (slash_to_underscore a) = slash_to_underscore a.
Proof.
  intros H. apply sanitize_safe. revert H.
  induction a as [|c a IH]; [reflexivity|].
  unfold id_ok, slash_to_underscore in *. cbn [string_forall string_map].
  intros H. apply andb_true_iff in H as [Hc Ha].
  rewrite (IH Ha), andb_true_r.
  destruct (id_char_cases c Hc) as [-> | (Hsafe & _ & Hns)]; [reflexivity|].
  destruct (Ascii.eqb_spec c "/"); [contradiction | exact Hsafe].
Qed.

Lemma slash_to_underscore_inj (a1 a2 : string) :
  id_ok a1 = true -> id_ok a2 = true ->
  slash_to_underscore a1 = slash_to_underscore a2 -> a1 = a2.
Proof.
  revert a2. induction a1 as [|c1 a1 IH]; intros [|c2 a2] H1 H2 H;
    try discriminate; [reflexivity|].
  unfold id_ok, slash_to_underscore in *. cbn [string_forall string_map] in *.
  apply andb_true_iff in H1 as [Hc1 Ha1]. apply andb_true_iff in H2 as [Hc2 Ha2].
  injection H as Hc H. f_equal; [|exact (IH a2 Ha1 Ha2 H)].
  destruct (id_char_cases c1 Hc1) as [-> | (_ & Hu1 & Hs1)];
    destruct (id_char_cases c2 Hc2) as [-> | (_ & Hu2 & Hs2)].
  - reflexivity.
  - cbn in Hc. destruct (Ascii.eqb_spec c2 "/"); congruence.
  - cbn in Hc. destruct (Ascii.eqb_spec c1 "/"); congruence.
  - destruct (Ascii.eqb_spec c1 "/"); [contradiction|].
    destruct (Ascii.eqb_spec c2 "/"); [contradiction|]. exact Hc.
Qed.

Lemma count_underscores (a : string) :
  id_ok a = true -> count_char "_" (slash_to_underscore a) = count_char "/" a.
Proof.
  induction a as [|c a IH]; [reflexivity|].
  unfold id_ok, slash_to_underscore in *. cbn [string_forall string_map count_char].
  intros H. apply andb_true_iff in H as [Hc Ha]. rewrite (IH Ha). f_equal.
  destruct (id_char_cases c Hc) as [-> | (_ & Hu & Hs)]; [reflexivity|].
  destruct (Ascii.eqb_spec c "/"); [contradiction|].
  destruct (Ascii.eqb_spec c "_"); [contradiction | reflexivity].
Qed.

(** Two names with as many underscores, each followed by an underscore,
    split a common string at the same place. *)
Lemma split_at_underscore (x1 x2 r1 r2 : string) :
  count_char "_" x1 = count_char "_" x2 ->
  x1 ++ "_" ++ r1 = x2 ++ "_" ++ r2 ->
  x1 = x2 /\ r1 = r2.
Proof.
  revert x2. induction x1 as [|c x1 IH]; intros [|c' x2] Hn H.
  - rewrite !append_nil, !append_cons in H. injection H as H. auto.
  - rewrite append_nil, !append_cons in H. injection H as <- _.
    cbn in Hn. discriminate.
  - rewrite append_nil, !append_cons in H. injection H as -> _.
    cbn in Hn. discriminate.
  - rewrite !(append_cons _ _ ("_" ++ _)) in H. injection H as -> H.
    cbn [count_char] in Hn. apply Nat.add_cancel_l in Hn.
    destruct (IH x2 Hn H) as [-> ->]. auto.
Qed.


Lemma storageKey_sanitized (r1 r2 : resource) :
  storageKey r1 = storageKey r2 <-> sanitize (cacheKey r1) = sanitize (cacheKey r2).
Proof.
  unfold storageKey, getCacheFilePath, path_join. split.
  - intros H. apply (inj (String.app _)), (inj (String.app _)) in H.
    exact (append_inv_tail _ _ _ H).
  - intros ->. reflexivity.
Qed.

Lemma reviews_key_sanitized (a l : string) (p : option string) :
  id_ok a = true -> id_ok l = true -> token_ok p ->
  sanitize (reviewsCacheKey a l p) =
  "reviews_" ++ slash_to_underscore a ++ "_" ++ slash_to_underscore l ++ "_"
    ++ (if given p then default "" p else "first").
Proof.
  intros Ha Hl Hp. unfold reviewsCacheKey.
  rewrite !sanitize_append, (sanitize_id a Ha), (sanitize_id l Hl).
  assert (Ht : sanitize (if given p then default "" p else "first") =
               (if given p then default "" p else "first")).
  { destruct p as [s|]; cbn [given default]; [|reflexivity].
    destruct (negb (String.eqb s "")); [|reflexivity].
    apply sanitize_safe, Hp. }
  rewrite Ht. reflexivity.
Qed.

Lemma cursor_of_key (p1 p2 : option string) :
  token_ok p1 -> token_ok p2 ->
  (if given p1 then default "" p1 else "first") =
  (if given p2 then default "" p2 else "first") ->
  cursor p1 = cursor p2.
Proof.
  unfold cursor.
  destruct p1 as [s1|], p2 as [s2|]; cbn [given default token_ok];
    intros H1 H2; try reflexivity.
  - destruct (negb (String.eqb s1 "")), (negb (String.eqb s2 ""));
      intros H; cbv [id] in H; subst;
      first [ reflexivity
            | destruct H1 as [_ []]; reflexivity
            | destruct H2 as [_ []]; reflexivity ].
  - destruct (negb (String.eqb s1 "")); intros H; [|reflexivity].
    cbv [id] in H. subst. destruct H1 as [_ []]. reflexivity.
  - destruct (negb (String.eqb s2 "")); intros H; [|reflexivity].
    cbv [id] in H. subst. destruct H2 as [_ []]. reflexivity.
Qed.

Lemma key_of_cursor (p1 p2 : option string) :
  cursor p1 = cursor p2 ->
  (if given p1 then default "" p1 else "first") =
  (if given p2 then default "" p2 else "first").
Proof.
  unfold cursor.
  destruct p1 as [s1|], p2 as [s2|]; cbn [given default]; try reflexivity.
  - destruct (negb (String.eqb s1 "")), (negb (String.eqb s2 ""));
      intros H; try discriminate; [injection H as ->|]; reflexivity.
  - destruct (negb (String.eqb s1 "")); intros H; [discriminate | reflexivity].
  - destruct (negb (String.eqb s2 "")); intros H; [discriminate | reflexivity].
Qed.

(** C4, as the code has it. Key derivation is a function of the logical
    request: the same fetcher with the same ids and the same cursor (absent
    and empty both meaning the first page) always gets the same cache file.
    Distinct requests get distinct files when they are well-shaped: ids made
    of letters, digits, [-] and [/] with the same number of slashes in both
    calls, and cursors over [[a-zA-Z0-9_-]] other than [first]. *)
Theorem cache_keys_deterministic_and_separate :
  (forall r1 r2, same_request r1 r2 -> storageKey r1 = storageKey r2) /\
  (forall na nl r1 r2,
      well_shaped na nl r1 -> well_shaped na nl r2 ->
      storageKey r1 = storageKey r2 -> same_request r1 r2).
Proof.
  split.
  - intros [|a1|a1 l1 p1] [|a2|a2 l2 p2]; cbn [same_request]; try tauto.
    + intros ->. reflexivity.
    + intros (-> & -> & Hc). unfold storageKey. cbn [cacheKey].
      unfold reviewsCacheKey. rewrite (key_of_cursor p1 p2 Hc). reflexivity.
  - intros na nl [|a1|a1 l1 p1] [|a2|a2 l2 p2] H1 H2 H;
      apply storageKey_sanitized in H;
      cbn [cacheKey same_request well_shaped] in H, H1, H2 |- *;
      try exact I;
      try (rewrite ?sanitize_append in H; unfold reviewsCacheKey in H;
           rewrite ?sanitize_append in H; discriminate H).
    + rewrite !sanitize_append, (sanitize_id a1 H1), (sanitize_id a2 H2) in H.
      apply (inj (String.app _)) in H.
      exact (slash_to_underscore_inj a1 a2 H1 H2 H).
    + destruct H1 as (Ha1 & Hn1 & Hl1 & Hm1 & Hp1).
      destruct H2 as (Ha2 & Hn2 & Hl2 & Hm2 & Hp2).
      rewrite (reviews_key_sanitized a1 l1 p1 Ha1 Hl1 Hp1) in H.
      rewrite (reviews_key_sanitized a2 l2 p2 Ha2 Hl2 Hp2) in H.
      apply (inj (String.app _)) in H.
      apply split_at_underscore in H as [Ha H];
        [|rewrite !count_underscores by assumption; congruence].
      apply split_at_underscore in H as [Hl H];
        [|rewrite !count_underscores by assumption; congruence].
      repeat split.
      * exact (slash_to_underscore_inj a1 a2 Ha1 Ha2 Ha).
      * exact (slash_to_underscore_inj l1 l2 Hl1 Hl2 Hl).
      * exact (cursor_of_key p1 p2 Hp1 Hp2 H).
Qed.


(** ** Concrete runs *)

(** A runtime for the examples, none of which stores a non-numeric
    [expiry]. *)
Definition exampleStringToNumber : string -> num := fun _ => NaN.
Definition exampleISOString : Z -> string := fun _ => "1970-01-01T00:00:01.000Z".

Definition no_fault : ioop -> string -> bool := fun _ _ => false.

Definition accounts_url : url :=
  Url "https://mybusinessaccountmanagement.googleapis.com/v1/accounts" [].

(** An upstream that answers every request with [r]. *)
Definition always (r : reply) : url -> string -> reply := fun _ _ => r.

Definition lockout_until (e : Z) : text :=
  Json (JObj [("expiry", JNum e); ("setAt", JStr "1970-01-01T00:00:01.000Z")]).

(** Time 1000; a lockout record expiring at 61000; nothing cached. *)
Definition locked_world : world :=
  mkWorld {[ LOCKOUT_FILE := lockout_until 61000 ]} true 1000 no_fault
          (always (Reply 200 (Some (JObj [])))) 120 [] [].

(** The same record, looked at when it has just expired. *)
Definition expired_world : world := set_now 61000 locked_world.

(** No lockout, and an upstream that answers 429 with [body]. *)
Definition quota_world (body : option json) : world :=
  mkWorld ∅ true 1000 no_fault (always (Reply 429 body)) 120 [] [].

(** [cache_ttl] at key [accounts], payload [{}], a ttl of one second and a
    lookup half a second later. *)
Lemma cache_ttl_witness :
  fst (getCached exampleStringToNumber "accounts"
         (advance 500
            (snd (setCache "accounts" (Val (JObj [])) 1000 (quota_world None))))) =
  Ret (Val (JObj [])).
Proof.
  apply (cache_ttl exampleStringToNumber "accounts" (Val (JObj [])) 1000 500
           (quota_world None)).
  - repeat split.
  - vm_compute. discriminate.
Defined.

Lemma lockout_blocks_every_call_witness :
  sent (snd (guardedFetch exampleStringToNumber exampleISOString
               accounts_url "token" locked_world)) = sent locked_world.
Proof.
  apply (lockout_blocks_every_call exampleStringToNumber exampleISOString
           accounts_url "token" 61000 locked_world).
  - exists [("expiry", JNum 61000); ("setAt", JStr "1970-01-01T00:00:01.000Z")].
    repeat split.
  - reflexivity.
Defined.

Lemma lockout_recovers_on_first_check_witness :
  sent (snd (guardedFetch exampleStringToNumber exampleISOString
               accounts_url "token" expired_world)) = [(accounts_url, "token")].
Proof.
  apply (lockout_recovers_on_first_check exampleStringToNumber exampleISOString
           accounts_url "token" 61000 expired_world).
  - exists [("expiry", JNum 61000); ("setAt", JStr "1970-01-01T00:00:01.000Z")].
    repeat split.
  - reflexivity.
  - vm_compute. discriminate.
Defined.


(** The body [{"error": {"message": m}}]. *)
Definition error_body (m : json) : json := JObj [("error", JObj [("message", m)])].

(** [quota_response_trips_lockout] at an upstream message
    [Quota exceeded]. *)
Lemma quota_response_trips_lockout_witness :
  exists msg,
    fst (guardedFetch exampleStringToNumber exampleISOString accounts_url "token"
           (quota_world (Some (error_body (JStr "Quota exceeded"))))) =
      Throw (ApiError msg 429 (Fin 60)) /\
    msg = "Quota exceeded".
Proof.
  destruct (quota_response_trips_lockout exampleStringToNumber exampleISOString
              accounts_url "token" (Fin 0)
              (quota_world (Some (error_body (JStr "Quota exceeded"))))
              (quota_world (Some (error_body (JStr "Quota exceeded"))))
              (Some (error_body (JStr "Quota exceeded")))
              (Val (JObj [("message", JStr "Quota exceeded")]))
              (Val (JStr "Quota exceeded"))
              eq_refl eq_refl eq_refl eq_refl eq_refl eq_refl)
    as (_ & _ & _ & msg & Hrun & _ & Hmsg & _).
  exists msg. split; [exact Hrun|].
  apply (Hmsg "Quota exceeded" eq_refl). discriminate.
Defined.

(** C2 as stated fails: with the guard open and a 429 whose body is
    [{"error": {"message": ""}}], the message is present (the empty string)
    and [guardedFetch] throws the generic text instead. *)
Lemma quota_message_counterexample :
  ~ (forall (w : world) (u : url) (accessToken : string) (b : json) (err m : value),
        files w !! LOCKOUT_FILE = None ->
        upstream w u accessToken = Reply 429 (Some b) ->
        get_prop (Val b) "error" = Ret err ->
        get_prop_opt err "message" = Ret m ->
        m <> Undefined ->
        fst (guardedFetch exampleStringToNumber exampleISOString u accessToken w) =
          Throw (ApiError (ToString m) 429 (Fin 60))).
Proof.
  intros H.
  specialize (H (quota_world (Some (error_body (JStr "")))) accounts_url "token"
                (error_body (JStr "")) (Val (JObj [("message", JStr "")])) (Val (JStr ""))
                eq_refl eq_refl eq_refl eq_refl ltac:(discriminate)).
  vm_compute in H. discriminate H.
Qed.

(** A cached [accounts] payload of [0], fresh until 5000, under the lockout
    of [locked_world]. *)
Definition falsy_cache_world : world :=
  set_files (<[ getCacheFilePath "accounts" :=
                  Json (JObj [("data", JNum 0); ("expiry", JNum 5000)]) ]>
               (files locked_world)) locked_world.

(** A cached [accounts] payload of [{"accounts": []}] under the same
    lockout. *)
Definition warm_cache_world : world :=
  set_files (<[ getCacheFilePath "accounts" :=
                  Json (JObj [("data", JObj [("accounts", JArr [])]);
                              ("expiry", JNum 5000)]) ]>
               (files locked_world)) locked_world.

Lemma cache_hit_bypasses_lockout_witness :
  fst (fetchResource exampleStringToNumber exampleISOString "token" Accounts
         warm_cache_world) = Ret (Val (JObj [("accounts", JArr [])])) /\
  sent (snd (fetchResource exampleStringToNumber exampleISOString "token" Accounts
               warm_cache_world)) = [].
Proof.
  destruct (cache_hit_bypasses_lockout exampleStringToNumber exampleISOString
              "token" Accounts (Val (JObj [("accounts", JArr [])])) 5000
              warm_cache_world) as (Hrun & Hsent & _).
  - exists [("data", JObj [("accounts", JArr [])]); ("expiry", JNum 5000)].
    repeat split.
  - vm_compute. discriminate.
  - reflexivity.
  - rewrite Hrun. split; reflexivity.
Defined.

(** C6 as stated fails: the cached payload [0] is fresh, yet under the
    lockout [fetchAccounts] throws instead of returning it. *)
Lemma cache_hit_counterexample :
  ~ (forall (accessToken : string) (r : resource) (data : value) (e : Z) (w : world),
        cache_record w (cacheKey r) data e ->
        now w <= e ->
        fst (fetchResource exampleStringToNumber exampleISOString accessToken r w) =
          Ret data).
Proof.
  intros H.
  specialize (H "token" Accounts (Val (JNum 0)) 5000 falsy_cache_world).
  assert (Hrec : cache_record falsy_cache_world (cacheKey Accounts) (Val (JNum 0)) 5000).
  { exists [("data", JNum 0); ("expiry", JNum 5000)]. repeat split. }
  specialize (H Hrec ltac:(vm_compute; discriminate)).
  vm_compute in H. discriminate H.
Qed.

Lemma falsy_payload_is_a_miss_witness :
  exists secs,
    fst (fetchResource exampleStringToNumber exampleISOString "token" Accounts
           falsy_cache_world) =
      Throw (ApiError (blocked_message (Fin secs)) 429 (Fin secs)) /\
    sent (snd (fetchResource exampleStringToNumber exampleISOString "token" Accounts
                 falsy_cache_world)) = sent falsy_cache_world.
Proof.
  destruct (falsy_payload_is_a_miss exampleStringToNumber exampleISOString
              "token" Accounts (Val (JNum 0)) 5000 falsy_cache_world) as (_ & Hlock & _).
  - exists [("data", JNum 0); ("expiry", JNum 5000)]. repeat split.
  - vm_compute. discriminate.
  - reflexivity.
  - apply (Hlock 61000).
    + exists [("expiry", JNum 61000); ("setAt", JStr "1970-01-01T00:00:01.000Z")].
      repeat split.
    + reflexivity.
Defined.

(** C4 as stated fails: the first page and the page whose cursor is the
    string [first] are different requests, sent to different URLs, and are
    cached in the same file. *)
Lemma cache_key_counterexample :
  ~ (forall r1 r2 : resource,
        ~ same_request r1 r2 ->
        requestUrl r1 <> requestUrl r2 ->
        storageKey r1 <> storageKey r2).
Proof.
  intros H.
  apply (H (Reviews "accounts/1" "locations/2" None)
           (Reviews "accounts/1" "locations/2" (Some "first"))).
  - cbn. intros (_ & _ & Hc). discriminate Hc.
  - cbn. discriminate.
  - reflexivity.
Qed.

(** [cache_keys_deterministic_and_separate] at the first page asked for
    with no cursor and with an empty one. *)
Lemma cache_keys_deterministic_and_separate_witness :
  same_request (Reviews "accounts/1" "locations/2" None)
               (Reviews "accounts/1" "locations/2" (Some "")).
Proof.
  apply (proj2 cache_keys_deterministic_and_separate 1%nat 1%nat
           (Reviews "accounts/1" "locations/2" None)
           (Reviews "accounts/1" "locations/2" (Some ""))).
  - repeat split.
  - repeat split. discriminate.
  - reflexivity.
Defined.


(** ** Facts about the countdown *)

Module HomeFacts.
Import Home.

Lemma ticks_S (k : nat) (s : state) : ticks (S k) s = tick (ticks k s).
Proof. reflexivity. Qed.

Lemma stop_interval_single (s : state) :
  single_timer s ->
  countdownRef (stop_interval s) = None /\ intervals (stop_interval s) = [].
Proof.
  unfold single_timer, stop_interval. intros H.
  destruct (countdownRef s) as [h|] eqn:Href; cbn.
  - rewrite H. cbn. rewrite Nat.eqb_refl. auto.
  - auto.
Qed.

(** A render with a positive countdown and a stored action leaves the
    countdown running on exactly one timer. *)
Lemma render_counting (s : state) (act : action) :
  single_timer s ->
  0 < countdown s ->
  pendingAction s = Some act ->
  counting (render s) (countdown s) act /\
  invoked (render s) = invoked s /\ error (render s) = error s.
Proof.
  intros Hst Hpos Hact.
  assert (Hle : Z.leb (countdown s) 0 = false) by (apply Z.leb_gt; exact Hpos).
  unfold render, run_effect, countdown_cleanup.
  destruct (has_cleanup s) eqn:Hc.
  - destruct (stop_interval_single s Hst) as [Href Hint].
    unfold countdown_effect.
    replace (countdown (set_has_cleanup false (stop_interval s))) with (countdown s)
      by (unfold stop_interval; destruct (countdownRef s); reflexivity).
    rewrite Hle. cbn [countdownRef set_has_cleanup]. rewrite Href.
    replace (pendingAction (set_has_cleanup true
                              (start_interval (set_has_cleanup false (stop_interval s)))))
      with (pendingAction s)
      by (unfold stop_interval; destruct (countdownRef s); reflexivity).
    rewrite Hact.
    unfold counting. cbn. rewrite Hint.
    unfold stop_interval; destruct (countdownRef s); cbn; eauto 10.
  - unfold countdown_effect. rewrite Hle.
    destruct (countdownRef s) as [h|] eqn:Href.
    + cbn [pendingAction set_has_cleanup]. rewrite Hact.
      unfold counting, single_timer in *. rewrite Href in Hst. cbn. eauto 10.
    + cbn [pendingAction set_has_cleanup start_interval]. rewrite Hact.
      unfold counting, single_timer in *. rewrite Href in Hst. cbn.
      rewrite Hst. eauto 10.
Qed.

Lemma counting_single (s : state) (c : Z) (act : action) :
  counting s c act -> single_timer s.
Proof.
  intros (_ & _ & _ & (h & Href & Hint) & _).
  unfold single_timer. rewrite Href. exact Hint.
Qed.

(** A tick of a countdown above one. *)
Lemma tick_counting (s : state) (c : Z) (act : action) :
  counting s c act ->
  1 < c ->
  counting (tick s) (c - 1) act /\
  invoked (tick s) = invoked s /\ error (tick s) = error s.
Proof.
  intros Hc Hgt. pose proof (counting_single s c act Hc) as Hst.
  destruct Hc as (Hcd & Hpos & Hact & (h & Href & Hint) & Hcl).
  unfold tick. rewrite Hint. change (Nat.iter (length [h]) ?f ?x) with (f x). cbv beta. rewrite Hcd.
  replace (Z.max 0 (c - 1)) with (c - 1) by lia.
  destruct (Z.eqb_spec (c - 1) c) as [E|_]; [lia|].
  destruct (render_counting (set_countdown (c - 1) s) act) as (H1 & H2 & H3).
  - exact Hst.
  - cbn. lia.
  - exact Hact.
  - cbn [countdown set_countdown invoked error] in H1, H2, H3. auto.
Qed.

(** The tick that takes the countdown to zero calls the stored action, once,
    and leaves no timer. *)
Lemma tick_fires (s : state) (act : action) :
  counting s 1 act ->
  let s' := tick s in
  countdown s' = 0 /\ error s' = None /\ pendingAction s' = None /\
  countdownRef s' = None /\ intervals s' = [] /\
  invoked s' = (invoked s ++ [act])%list.
Proof.
  intros (Hcd & Hpos & Hact & (h & Href & Hint) & Hcl). cbv zeta.
  destruct s as [e c pa ref ints nh hc inv].
  cbn [countdown pendingAction countdownRef intervals has_cleanup] in *. subst.
  unfold tick, render, run_effect, countdown_cleanup, countdown_effect, stop_interval.
  cbn. rewrite Nat.eqb_refl. cbn. auto 10.
Qed.

(** With no timer live, time changes nothing. *)
Lemma ticks_idle (s : state) (m : nat) :
  intervals s = [] -> ticks m s = s.
Proof.
  intros Hint. induction m as [|m IH]; [reflexivity|].
  rewrite ticks_S, IH.
  unfold tick. rewrite Hint. change (Nat.iter (length []) ?f ?x) with x.
  rewrite Z.eqb_refl. reflexivity.
Qed.

Lemma ticks_add (a b : nat) (s : state) :
  ticks (a + b) s = ticks b (ticks a s).
Proof.
  unfold ticks. rewrite Nat.add_comm. apply Nat.iter_add.
Qed.

(** A countdown of [c] seconds: it shows [c - k] after [k] seconds, calls
    nothing before the [c]-th second, and on it calls the stored action. *)
Lemma countdown_run (s : state) (c : Z) (act : action) :
  counting s c act ->
  (forall k : nat, Z.of_nat k < c ->
     counting (ticks k s) (c - Z.of_nat k) act /\
     invoked (ticks k s) = invoked s /\ error (ticks k s) = error s) /\
  (let s' := ticks (Z.to_nat c) s in
   countdown s' = 0 /\ error s' = None /\ pendingAction s' = None /\
   countdownRef s' = None /\ intervals s' = [] /\
   invoked s' = (invoked s ++ [act])%list).
Proof.
  intros Hc.
  assert (Hrun : forall k : nat, Z.of_nat k < c ->
            counting (ticks k s) (c - Z.of_nat k) act /\
            invoked (ticks k s) = invoked s /\ error (ticks k s) = error s).
  { induction k as [|k IH]; intros Hk.
    - change (ticks 0 s) with s. replace (c - Z.of_nat 0) with c by lia. auto.
    - destruct IH as (Hck & Hik & Hek); [lia|].
      rewrite ticks_S.
      destruct (tick_counting _ _ act Hck) as (H1 & H2 & H3); [lia|].
      replace (c - Z.of_nat (S k)) with (c - Z.of_nat k - 1) by lia.
      split; [exact H1 | split; congruence]. }
  split; [exact Hrun|].
  assert (Hpos : 0 < c) by (destruct Hc as (_ & H & _); exact H).
  destruct (Hrun (Z.to_nat c - 1)%nat) as (Hlast & Hil & _); [lia|].
  replace (c - Z.of_nat (Z.to_nat c - 1)) with 1 in Hlast by lia.
  replace (Z.to_nat c) with (S (Z.to_nat c - 1)) by lia.
  rewrite ticks_S.
  pose proof (tick_fires _ act Hlast) as Hf. cbv zeta in Hf.
  rewrite Hil in Hf. exact Hf.
Qed.

Lemma single_timer_fields (s s' : state) :
  countdownRef s' = countdownRef s -> intervals s' = intervals s ->
  single_timer s -> single_timer s'.
Proof. unfold single_timer. intros -> ->. auto. Qed.

Lemma run_effect_single (s : state) : single_timer s -> single_timer (run_effect s).
Proof.
  intros Hst. unfold run_effect.
  assert (Hcl : single_timer (countdown_cleanup s)).
  { unfold countdown_cleanup. destruct (has_cleanup s); [|exact Hst].
    destruct (stop_interval_single s Hst) as [H1 H2].
    unfold single_timer. cbn. rewrite H1, H2. reflexivity. }
  revert Hcl. generalize (countdown_cleanup s). clear s Hst. intros s Hst.
  unfold countdown_effect. destruct (Z.leb (countdown s) 0).
  - destruct (stop_interval_single s Hst) as [H1 H2].
    destruct (pendingAction s); unfold single_timer; cbn; rewrite H1, H2; reflexivity.
  - unfold single_timer in *. destruct (countdownRef s) eqn:Href; cbn.
    + rewrite Href. exact Hst.
    + rewrite Hst. reflexivity.
Qed.

Lemma render_single (s : state) : single_timer s -> single_timer (render s).
Proof.
  intros Hst. unfold render.
  destruct (pendingAction s); [|apply run_effect_single, Hst].
  destruct (pendingAction (run_effect s));
    [|apply run_effect_single]; apply run_effect_single, Hst.
Qed.

Lemma step_single (s : state) (ev : event) : single_timer s -> single_timer (step s ev).
Proof.
  intros Hst. destruct ev as [call hint| |]; cbn [step].
  - apply render_single. exact Hst.
  - unfold tick. destruct (Z.eqb _ _); [exact Hst|]. apply render_single. exact Hst.
  - apply render_single. exact Hst.
Qed.

Lemma run_single (evs : list event) (s : state) :
  single_timer s -> single_timer (run evs s).
Proof.
  revert s. induction evs as [|ev evs IH]; intros s Hst; [exact Hst|].
  apply IH, step_single, Hst.
Qed.

(** Calls made so far, plus one for a stored action. *)
Definition owed (s : state) : nat :=
  (length (invoked s) + match pendingAction s with Some _ => 1 | None => 0 end)%nat.

Lemma stop_interval_owed (s : state) :
  invoked (stop_interval s) = invoked s /\
  pendingAction (stop_interval s) = pendingAction s /\
  countdown (stop_interval s) = countdown s.
Proof. unfold stop_interval. destruct (countdownRef s); auto. Qed.

Lemma run_effect_owed (s : state) : owed (run_effect s) = owed s.
Proof.
  unfold run_effect.
  assert (Hcl : owed (countdown_cleanup s) = owed s).
  { unfold countdown_cleanup, owed. destruct (has_cleanup s); [|reflexivity].
    destruct (stop_interval_owed s) as (H1 & H2 & _). cbn. rewrite H1, H2. reflexivity. }
  rewrite <- Hcl. generalize (countdown_cleanup s). clear s Hcl. intros s.
  unfold countdown_effect, owed.
  destruct (stop_interval_owed s) as (H1 & H2 & _).
  destruct (Z.leb (countdown s) 0).
  - destruct (pendingAction s); cbn; rewrite ?H1, ?H2; [|reflexivity].
    rewrite length_app. cbn. lia.
  - destruct (countdownRef s); reflexivity.
Qed.

Lemma render_owed (s : state) : owed (render s) = owed s.
Proof.
  unfold render. destruct (pendingAction s) eqn:Hp; [|apply run_effect_owed].
  destruct (pendingAction (run_effect s));
    [|rewrite run_effect_owed]; apply run_effect_owed.
Qed.

Lemma step_owed (s : state) (ev : event) :
  (owed (step s ev) <= owed s + (if is_quota ev then 1 else 0))%nat.
Proof.
  destruct ev as [call hint| |]; cbn [step is_quota].
  - unfold on429, handleQuotaError. rewrite render_owed. unfold owed. cbn.
    destruct (pendingAction s); lia.
  - unfold tick. destruct (Z.eqb _ _); [lia|]. rewrite render_owed.
    unfold owed. cbn. lia.
  - unfold dismiss. rewrite render_owed. unfold owed. cbn.
    destruct (pendingAction s); lia.
Qed.

Lemma run_owed (evs : list event) (s : state) :
  (owed (run evs s) <= owed s + length (List.filter is_quota evs))%nat.
Proof.
  revert s. induction evs as [|ev evs IH]; intros s; [cbn; lia|].
  cbn [run fold_left List.filter]. fold (run evs (step s ev)).
  pose proof (IH (step s ev)) as H1. pose proof (step_owed s ev) as H2.
  destruct (is_quota ev); cbn [length] in *; lia.
Qed.

Lemma on429_counting (call : action) (r : Z) (s : state) :
  single_timer s ->
  counting (on429 call (Some r) s) (Z.max r 60) call /\
  invoked (on429 call (Some r) s) = invoked s /\
  error (on429 call (Some r) s) = Some RateLimitNotice.
Proof.
  intros Hst. unfold on429, handleQuotaError.
  assert (Hmax : Z.max (if Z.eqb r 0 then 60 else r) 60 = Z.max r 60).
  { destruct (Z.eqb_spec r 0); lia. }
  rewrite Hmax.
  destruct (render_counting
              (set_error (Some RateLimitNotice)
                 (set_pendingAction (Some call) (set_countdown (Z.max r 60) s))) call)
    as (H1 & H2 & H3).
  - exact Hst.
  - cbn. lia.
  - reflexivity.
  - cbn [countdown set_error set_pendingAction set_countdown invoked error] in H1, H2, H3.
    auto.
Qed.


(** C7. When a loader receives a 429 carrying [retryAfter = r], the
    countdown starts at [max(r, 60)]; after [k] seconds it shows
    [max(r, 60) - k], and until it reaches zero nothing is called, the
    notice stays, and one timer runs; when it reaches zero the error is
    cleared and the very call that failed, with the arguments it was made
    with, is called, and it is never called again however long one waits. *)
Theorem countdown_then_single_retry (call : action) (r : Z) (s : state) :
  single_timer s ->
  let n := Z.max r 60 in
  let s0 := on429 call (Some r) s in
  countdown s0 = n /\
  (forall k : nat, Z.of_nat k < n ->
     countdown (ticks k s0) = n - Z.of_nat k /\
     pendingAction (ticks k s0) = Some call /\
     error (ticks k s0) = Some RateLimitNotice /\
     length (intervals (ticks k s0)) = 1%nat /\
     invoked (ticks k s0) = invoked s) /\
  (forall m : nat,
     let s' := ticks (Z.to_nat n + m) s0 in
     countdown s' = 0 /\ error s' = None /\ pendingAction s' = None /\
     intervals s' = [] /\
     invoked s' = (invoked s ++ [call])%list).
Proof.
  intros Hst. cbv zeta.
  destruct (on429_counting call r s Hst) as (Hc & Hi & He).
  destruct (countdown_run _ _ _ Hc) as (Hrun & Hend). cbv zeta in Hend.
  split; [destruct Hc as (H & _); exact H|].
  split.
  - intros k Hk.
    destruct (Hrun k Hk) as ((H1 & _ & H3 & (h & _ & H4) & _) & H5 & H6).
    rewrite H4. repeat split; congruence.
  - intros m. rewrite ticks_add.
    destruct Hend as (H1 & H2 & H3 & H4 & H5 & H6).
    rewrite (ticks_idle _ m H5). repeat split; congruence.
Qed.

(** C8. There is one countdown and one stored action at any time. A 429
    that arrives while a countdown is pending re-seeds the countdown from
    its own [retryAfter] and replaces the stored action; one timer runs; the
    replaced action is never called, the new one is called when the new
    countdown ends. And over any history of 429s, seconds and dismissals, at
    most one timer is live and no more retries are made than 429s
    received. *)
Theorem single_pending_retry (call1 call2 : action) (r1 r2 : Z) (k : nat) (s : state) :
  single_timer s ->
  Z.of_nat k < Z.max r1 60 ->
  let s1 := ticks k (on429 call1 (Some r1) s) in
  let s2 := on429 call2 (Some r2) s1 in
  (countdown s2 = Z.max r2 60 /\ pendingAction s2 = Some call2 /\
   length (intervals s2) = 1%nat) /\
  (forall m : nat,
     invoked (ticks m s2) = invoked s \/
     invoked (ticks m s2) = (invoked s ++ [call2])%list) /\
  invoked (ticks (Z.to_nat (Z.max r2 60)) s2) = (invoked s ++ [call2])%list /\
  (forall evs : list event,
     single_timer (run evs initial) /\
     (length (intervals (run evs initial)) <= 1)%nat /\
     (length (invoked (run evs initial)) <= length (List.filter is_quota evs))%nat).
Proof.
  intros Hst Hk. cbv zeta.
  destruct (on429_counting call1 r1 s Hst) as (Hc1 & Hi1 & _).
  destruct (countdown_run _ _ _ Hc1) as (Hrun1 & _).
  destruct (Hrun1 k Hk) as (Hck & Hik & _).
  set (s1 := ticks k (on429 call1 (Some r1) s)) in *.
  pose proof (counting_single _ _ _ Hck) as Hst1.
  destruct (on429_counting call2 r2 s1 Hst1) as (Hc2 & Hi2 & _).
  set (s2 := on429 call2 (Some r2) s1) in *.
  assert (Hinv : invoked s2 = invoked s) by congruence.
  destruct (countdown_run _ _ _ Hc2) as (Hrun2 & Hend2). cbv zeta in Hend2.
  split.
  { destruct Hc2 as (H1 & _ & H3 & (h & _ & H4) & _). rewrite H4. auto. }
  split.
  { intros m.
    destruct (Z.lt_ge_cases (Z.of_nat m) (Z.max r2 60)) as [Hlt|Hge].
    - left. destruct (Hrun2 m Hlt) as (_ & H & _). congruence.
    - right. replace m with (Z.to_nat (Z.max r2 60) + (m - Z.to_nat (Z.max r2 60)))%nat
        by lia.
      rewrite ticks_add.
      destruct Hend2 as (_ & _ & _ & _ & H5 & H6).
      rewrite (ticks_idle _ _ H5). congruence. }
  split.
  { destruct Hend2 as (_ & _ & _ & _ & _ & H6). congruence. }
  intros evs.
  pose proof (run_single evs initial eq_refl) as Hs.
  split; [exact Hs|]. split.
  - unfold single_timer in Hs. rewrite Hs.
    destruct (countdownRef (run evs initial)); cbn; lia.
  - pose proof (run_owed evs initial) as Ho. unfold owed in Ho at 1.
    change (owed initial) with 0%nat in Ho. lia.
Qed.

(** Dismissing a running countdown stops the timer and drops the action. *)
Lemma dismiss_counting (s : state) (c : Z) (act : action) :
  counting s c act ->
  countdown (dismiss s) = 0 /\ error (dismiss s) = None /\
  pendingAction (dismiss s) = None /\ countdownRef (dismiss s) = None /\
  intervals (dismiss s) = [] /\ invoked (dismiss s) = invoked s.
Proof.
  intros (Hcd & Hpos & Hact & (h & Href & Hint) & Hcl).
  destruct s as [e c' pa ref ints nh hc inv].
  cbn [countdown pendingAction countdownRef intervals has_cleanup] in *. subst.
  unfold dismiss, render, run_effect, countdown_cleanup, countdown_effect, stop_interval.
  cbn. rewrite Nat.eqb_refl. cbn. auto 10.
Qed.

(** X17. Closing the banner cancels the retry. If the user dismisses the
    notice while the countdown after a 429 is still running, the countdown
    goes to zero, the error and the stored action are cleared, no timer is
    left, and the action is never called, however long one waits. *)
Theorem dismiss_cancels_retry (call : action) (r : Z) (k : nat) (s : state) :
  single_timer s ->
  Z.of_nat k < Z.max r 60 ->
  let s' := dismiss (ticks k (on429 call (Some r) s)) in
  countdown s' = 0 /\ error s' = None /\ pendingAction s' = None /\
  intervals s' = [] /\
  (forall m : nat, invoked (ticks m s') = invoked s).
Proof.
  intros Hst Hk. cbv zeta.
  destruct (on429_counting call r s Hst) as (Hc & Hi & _).
  destruct (countdown_run _ _ _ Hc) as (Hrun & _).
  destruct (Hrun k Hk) as (Hck & Hik & _).
  destruct (dismiss_counting _ _ _ Hck) as (H1 & H2 & H3 & H4 & H5 & H6).
  repeat split; try assumption.
  intros m. rewrite (ticks_idle _ m H5). congruence.
Qed.

End HomeFacts.


(** The page [tok] of the reviews of one location. *)
Definition reviews_page : Home.action :=
  Home.loadReviews "accounts/1" "locations/2" (Some "tok").

(** [countdown_then_single_retry] for a 429 with [retryAfter = 30] received
    by [loadReviews] on a later page, in the initial state: the countdown
    starts at 60, and sixty seconds later that page is asked for again. *)
Lemma countdown_then_single_retry_witness :
  Home.countdown (Home.on429 reviews_page (Some 30) Home.initial) = 60 /\
  Home.invoked (Home.ticks 60 (Home.on429 reviews_page (Some 30) Home.initial)) =
    [reviews_page].
Proof.
  destruct (HomeFacts.countdown_then_single_retry reviews_page 30 Home.initial)
    as (Hseed & _ & Hend).
  - reflexivity.
  - split; [exact Hseed | exact (proj2 (proj2 (proj2 (proj2 (Hend 0%nat)))))].
Defined.

(** [single_pending_retry] for a 429 on the accounts list followed, five
    seconds into its countdown, by a 429 with [retryAfter = 90] on a page of
    reviews. *)
Lemma single_pending_retry_witness :
  Home.countdown
    (Home.on429 reviews_page (Some 90)
       (Home.ticks 5 (Home.on429 Home.loadAccounts (Some 30) Home.initial))) = 90 /\
  Home.invoked
    (Home.ticks 90
       (Home.on429 reviews_page (Some 90)
          (Home.ticks 5 (Home.on429 Home.loadAccounts (Some 30) Home.initial)))) =
    [reviews_page].
Proof.
  destruct (HomeFacts.single_pending_retry Home.loadAccounts reviews_page 30 90 5
              Home.initial) as ((Hseed & _) & _ & Hend & _).
  - reflexivity.
  - reflexivity.
  - split; [exact Hseed | exact Hend].
Defined.


(** Storage on which every operation fails, and an upstream that answers
    200 with [{"accounts": []}]. *)
Definition failing_world : world :=
  mkWorld ∅ true 1000 (fun _ _ => true)
          (always (Reply 200 (Some (JObj [("accounts", JArr [])])))) 120 [] [].

(** [storage_failures_never_surface] on [failing_world]: the accounts are
    fetched and returned although they cannot be cached. *)
Lemma storage_failures_never_surface_witness :
  fst (fetchResource exampleStringToNumber exampleISOString "token" Accounts
         failing_world) = Ret (Val (JObj [("accounts", JArr [])])) /\
  (exists e w',
      setCache "accounts" (Val (JObj [("accounts", JArr [])])) CACHE_TTL failing_world
        = (Ret tt, w') /\
      console w' = [LogCacheWriteError e] /\ files w' = files failing_world).
Proof.
  destruct (storage_failures_never_surface exampleStringToNumber exampleISOString
              "accounts" (Val (JObj [("accounts", JArr [])])) CACHE_TTL failing_world)
    as (_ & _ & (Hwrite & _) & (Hfetch & _)).
  split.
  - apply (Hfetch "token" Accounts 200 (JObj [("accounts", JArr [])])).
    + reflexivity.
    + reflexivity.
    + reflexivity.
    + split; vm_compute; discriminate.
  - apply Hwrite. right. reflexivity.
Defined.

(** ** Beyond the claims: cache file names *)

Lemma sanitize_all_safe (key : string) : string_forall safe_char (sanitize key) = true.
Proof.
  induction key as [|c key IH]; [reflexivity|].
  unfold sanitize in *. cbn [string_map string_forall]. rewrite IH, andb_true_r.
  destruct (safe_char c) eqn:Hc; [exact Hc | reflexivity].
Qed.

Lemma sanitize_length (key : string) : String.length (sanitize key) = String.length key.
Proof.
  induction key as [|c key IH]; [reflexivity|].
  unfold sanitize in *. cbn [string_map String.length]. rewrite IH. reflexivity.
Qed.

Lemma count_char_append (c : ascii) (s t : string) :
  count_char c (s ++ t) = (count_char c s + count_char c t)%nat.
Proof.
  induction s as [|c' s IH]; [reflexivity|].
  rewrite append_cons. cbn [count_char]. rewrite IH. lia.
Qed.

Lemma count_char_safe (c : ascii) (s : string) :
  safe_char c = false -> string_forall safe_char s = true -> count_char c s = 0%nat.
Proof.
  intros Hc. induction s as [|c' s IH]; [reflexivity|].
  cbn [string_forall count_char]. intros H. apply andb_true_iff in H as [Hc' Hs].
  rewrite (IH Hs).
  destruct (Ascii.eqb_spec c' c) as [->|_]; [congruence | reflexivity].
Qed.

(** X16. A cache key cannot steer the file it is stored in. Whatever the
    key, the file name built from it has the key's length and only
    characters of [[a-zA-Z0-9_-]]; so every other character of the path (a
    slash, a dot, a backslash, ...) occurs exactly as often as in the fixed
    directory and extension, and a key that is already clean is kept as it
    is. *)
Theorem cache_file_name_is_safe (key : string) :
  string_forall safe_char (sanitize key) = true /\
  String.length (sanitize key) = String.length key /\
  (forall c, safe_char c = false ->
     count_char c (getCacheFilePath key) = count_char c (path_join CACHE_DIR ".json")) /\
  (string_forall safe_char key = true -> sanitize key = key) /\
  getCacheFilePath (sanitize key) = getCacheFilePath key.
Proof.
  pose proof (sanitize_all_safe key) as Hsafe.
  split; [exact Hsafe|]. split; [apply sanitize_length|]. split; [|split].
  - intros c Hc. unfold getCacheFilePath, path_join.
    rewrite !count_char_append, (count_char_safe c _ Hc Hsafe). reflexivity.
  - apply sanitize_safe.
  - unfold getCacheFilePath. rewrite (sanitize_safe _ Hsafe). reflexivity.
Qed.

(** ** Beyond the claims: the client against the server *)

(** X18. The retry waits out the lockout that refused the call. If the
    guard refuses a call at server time [t] because of a record expiring at
    [e], and the client receives the [retryAfter] the guard computed, then
    the countdown it starts lasts at least until [e]: nothing is called
    before the countdown ends, the refused call is repeated when it ends,
    and by then [e] has passed. *)
Theorem retry_waits_out_the_lockout (call : Home.action) (e t : Z) (s : Home.state) :
  t < e ->
  Home.single_timer s ->
  exists secs,
    ceil_div_1000 (Fin (e - t)) = Fin secs /\
    let s0 := Home.on429 call (Some secs) s in
    e <= t + 1000 * Home.countdown s0 /\
    (forall k : nat, Z.of_nat k < Home.countdown s0 ->
       Home.invoked (Home.ticks k s0) = Home.invoked s) /\
    Home.invoked (Home.ticks (Z.to_nat (Home.countdown s0)) s0) =
      (Home.invoked s ++ [call])%list.
Proof.
  intros Hlt Hst.
  destruct (ceil_div_1000_spec (e - t)) as (secs & Hq & Hb).
  exists secs. split; [exact Hq|]. cbv zeta.
  destruct (HomeFacts.on429_counting call secs s Hst) as (Hc & Hi & _).
  destruct (HomeFacts.countdown_run _ _ _ Hc) as (Hrun & Hend). cbv zeta in Hend.
  assert (Hcd : Home.countdown (Home.on429 call (Some secs) s) = Z.max secs 60)
    by (destruct Hc as (H & _); exact H).
  rewrite Hcd. split; [lia|]. split.
  - intros k Hk. destruct (Hrun k Hk) as (_ & H & _). congruence.
  - destruct Hend as (_ & _ & _ & _ & _ & H). congruence.
Qed.

(** ** Beyond the claims: the rating summary of the page

    [STAR_MAP], [ratingDistribution] and the two summary counters of
    src/app/page.tsx, and the badge of [ReviewCard]. A review is whatever
    has the [starRating] field of the [GoogleReview] type. *)

Module Stats.

Inductive StarRating : Type := ONE | TWO | THREE | FOUR | FIVE.

Definition STAR_MAP (s : StarRating) : Z :=
  match s with
  | ONE => 1
  | TWO => 2
  | THREE => 3
  | FOUR => 4
  | FIVE => 5
  end.


Section Reviews.

Variable GoogleReview : Type.
Variable starRating : GoogleReview -> StarRating.

(** [STAR_MAP[review.starRating] || 0] *)
Definition rating (review : GoogleReview) : Z :=
  let v := STAR_MAP (starRating review) in
  if Z.eqb v 0 then 0 else v.

(** [acc[k] || 0] *)
Definition count_at (acc : gmap Z Z) (k : Z) : Z :=
  match acc !! k with
  | Some n => if Z.eqb n 0 then 0 else n
  | None => 0
  end.

(** [reviews.reduce((acc, review) => { ...; acc[rating] = (acc[rating] || 0) + 1;
    return acc; }, {})] *)
Definition ratingDistribution (reviews : list GoogleReview) : gmap Z Z :=
  fold_left (fun acc review =>
               let r := rating review in
               <[r := count_at acc r + 1]> acc)
            reviews ∅.




(** The reviews rated [k], and those carrying a badge. *)
Definition rated (k : Z) (reviews : list GoogleReview) : list GoogleReview :=
  List.filter (fun review => Z.eqb (rating review) k) reviews.


Lemma count_at_default (acc : gmap Z Z) (k : Z) : count_at acc k = default 0 (acc !! k).
Proof.
  unfold count_at. destruct (acc !! k) as [n|]; [|reflexivity].
  cbn. destruct (Z.eqb_spec n 0); congruence.
Qed.

Lemma fold_counts (reviews : list GoogleReview) (acc : gmap Z Z) (k : Z) :
  count_at (fold_left (fun acc review =>
                         let r := rating review in
                         <[r := count_at acc r + 1]> acc) reviews acc) k =
  count_at acc k + Z.of_nat (length (rated k reviews)).
Proof.
  revert acc. induction reviews as [|review reviews IH]; intros acc.
  - cbn. lia.
  - cbn [fold_left]. rewrite IH. unfold rated. cbn [List.filter].
    rewrite !count_at_default.
    destruct (Z.eqb_spec (rating review) k) as [->|Hne].
    + rewrite lookup_insert_eq. cbn [length]. rewrite Nat2Z.inj_succ.
      unfold default. cbn [from_option]. cbv [id].
      destruct (acc !! k); lia.
    + rewrite lookup_insert_ne by exact Hne. lia.
Qed.

(** X19. The distribution counts the reviews star by star: for every list
    of reviews and every [k], the entry the page reads at [k] (taken as 0
    when missing) is the number of reviews rated [k]; in particular it is 0
    for every [k] outside 1..5. *)
Theorem distribution_counts (reviews : list GoogleReview) (k : Z) :
  count_at (ratingDistribution reviews) k = Z.of_nat (length (rated k reviews)) /\
  (~ (1 <= k <= 5) -> count_at (ratingDistribution reviews) k = 0).
Proof.
  assert (H : count_at (ratingDistribution reviews) k = Z.of_nat (length (rated k reviews))).
  { unfold ratingDistribution. rewrite fold_counts, count_at_default, lookup_empty.
    unfold default. cbn [from_option]. lia. }
  split; [exact H|].
  intros Hk. rewrite H. clear H.
  assert (Hnil : rated k reviews = []).
  { unfold rated. induction reviews as [|review reviews IH]; [reflexivity|].
    cbn [List.filter].
    destruct (Z.eqb_spec (rating review) k) as [E|_]; [|exact IH].
    exfalso. apply Hk. rewrite <- E. unfold rating.
    destruct (starRating review); cbn; lia. }
  rewrite Hnil. reflexivity.
Qed.


End Reviews.

End Stats.

(** ** Concrete runs of the further properties *)

Definition exampleNativeMessage : exn -> string := fun _ => "fetch failed".

(** Time 1000, an empty cache directory, working storage, and an upstream
    that answers every request with [r]. *)
Definition answering (r : reply) : world :=
  mkWorld ∅ true 1000 no_fault (always r) 120 [] [].

Definition accounts_payload : json := JObj [("accounts", JArr [])].

Lemma upstream_error_is_generic_witness :
  fst (fetchResource exampleStringToNumber exampleISOString "token" Accounts
         (answering (Reply 403 (Some (error_body (JStr "Forbidden")))))) =
  Throw (PlainError "Forbidden").
Proof.
  apply (upstream_error_is_generic exampleStringToNumber exampleISOString
           "token" Accounts 403 (error_body (JStr "Forbidden"))
           (Val (JObj [("message", JStr "Forbidden")])) (Val (JStr "Forbidden"))
           (answering (Reply 403 (Some (error_body (JStr "Forbidden")))))).
  - reflexivity.
  - reflexivity.
  - reflexivity.
  - discriminate.
  - lia.
  - reflexivity.
  - reflexivity.
Defined.

Lemma unreadable_answer_escapes_witness :
  fst (fetchResource exampleStringToNumber exampleISOString "token" Accounts
         (answering (Reply 502 None))) = Throw SyntaxError.
Proof.
  destruct (unreadable_answer_escapes exampleStringToNumber exampleISOString
              "token" Accounts (answering (Reply 502 None))) as (Hsyn & _).
  - reflexivity.
  - reflexivity.
  - apply (Hsyn 502); [reflexivity | discriminate].
Defined.

Lemma lockout_written_only_on_429_witness :
  files (snd (guardedFetch exampleStringToNumber exampleISOString accounts_url "token"
                (answering (Reply 500 None)))) !! LOCKOUT_FILE = None.
Proof.
  destruct (lockout_written_only_on_429 exampleStringToNumber exampleISOString
              accounts_url "token" (answering (Reply 500 None))) as (_ & H).
  destruct H as [H | H].
  - intros b. discriminate.
  - rewrite H. reflexivity.
  - exact H.
Defined.

Lemma failed_fetch_caches_nothing_witness :
  files (snd (fetchResource exampleStringToNumber exampleISOString "token" Accounts
                (answering (Reply 502 None)))) !! storageKey Accounts = None.
Proof.
  destruct (failed_fetch_caches_nothing exampleStringToNumber exampleISOString
              "token" Accounts SyntaxError (answering (Reply 502 None))) as [H | H].
  - reflexivity.
  - rewrite H. reflexivity.
  - exact H.
Defined.

Lemma fetch_then_hit_witness :
  fst (fetchResource exampleStringToNumber exampleISOString "another token" Accounts
         (advance 1000
            (snd (fetchResource exampleStringToNumber exampleISOString "token" Accounts
                    (answering (Reply 200 (Some accounts_payload))))))) =
  Ret (Val accounts_payload).
Proof.
  destruct (fetch_then_hit exampleStringToNumber exampleISOString
              "token" "another token" Accounts 200 accounts_payload
              (answering (Reply 200 (Some accounts_payload)))
              (advance 1000
                 (snd (fetchResource exampleStringToNumber exampleISOString "token" Accounts
                         (answering (Reply 200 (Some accounts_payload)))))))
    as (_ & _ & Hhit).
  - repeat split.
  - reflexivity.
  - reflexivity.
  - reflexivity.
  - split; vm_compute; discriminate.
  - reflexivity.
  - rewrite Hhit; [reflexivity | reflexivity | reflexivity |].
    vm_compute. discriminate.
Defined.

Lemma lockout_lasts_one_minute_witness :
  exists secs,
    1 <= secs <= 60 /\
    fst (guardedFetch exampleStringToNumber exampleISOString
           (reviewsUrl "accounts/1" "locations/2" None) "another token"
           (advance 30000
              (snd (guardedFetch exampleStringToNumber exampleISOString
                      accounts_url "token" (quota_world None))))) =
      Throw (ApiError (blocked_message (Fin secs)) 429 (Fin secs)).
Proof.
  destruct (lockout_lasts_one_minute exampleStringToNumber exampleISOString
              accounts_url (reviewsUrl "accounts/1" "locations/2" None)
              "token" "another token" (Fin 0) None 30000
              (quota_world None) (quota_world None)) as (Hin & _).
  - reflexivity.
  - reflexivity.
  - reflexivity.
  - reflexivity.
  - reflexivity.
  - reflexivity.
  - vm_compute. discriminate.
  - destruct Hin as (secs & Hb & Hrun & _); [reflexivity|].
    exists secs. split; [exact Hb | exact Hrun].
Defined.

(** A record [{"data": 7}] for the key [accounts], and a lockout record
    [{}], neither with an [expiry]. *)
Definition undated_world : world :=
  mkWorld {[ getCacheFilePath "accounts" := Json (JObj [("data", JNum 7)]);
             LOCKOUT_FILE := Json (JObj []) ]}
          true 1000 no_fault (always (Reply 200 (Some accounts_payload))) 120 [] [].

Lemma entry_without_expiry_never_expires_witness :
  fst (getCached exampleStringToNumber "accounts" (advance 1000000000 undated_world)) =
  Ret (Val (JNum 7)).
Proof.
  rewrite (entry_without_expiry_never_expires exampleStringToNumber "accounts"
             [("data", JNum 7)] 1000000000 undated_world);
    reflexivity.
Defined.

Lemma lockout_without_expiry_is_permanent_witness :
  fst (guardedFetch exampleStringToNumber exampleISOString accounts_url "token"
         (advance 1000000000 undated_world)) =
  Throw (ApiError "Rate limit active. Please wait NaN seconds." 429 NaN).
Proof.
  destruct (lockout_without_expiry_is_permanent exampleStringToNumber exampleISOString
              accounts_url "token" [] 1000000000 undated_world) as (_ & Hrun).
  - reflexivity.
  - reflexivity.
  - reflexivity.
  - rewrite Hrun. reflexivity.
Defined.

Lemma routes_reject_before_fetching_witness :
  route exampleStringToNumber exampleISOString exampleNativeMessage
    None (GET_reviews (Some "accounts/1") (Some "locations/2") None) locked_world =
  (Ret (mkHandled not_authenticated []), locked_world).
Proof.
  apply (routes_reject_before_fetching exampleStringToNumber exampleISOString
           exampleNativeMessage None
           (GET_reviews (Some "accounts/1") (Some "locations/2") None) locked_world).
  reflexivity.
Defined.

Lemma route_reports_lockout_witness :
  exists secs h,
    1000 * (secs - 1) < 61000 - 1000 <= 1000 * secs /\
    fst (route exampleStringToNumber exampleISOString exampleNativeMessage
           (Some "token") (GET_locations (Some "accounts/1")) locked_world) = Ret h /\
    response h =
      mkHttp 429 (JObj [("error", JStr (blocked_message (Fin secs)));
                        ("retryAfter", JNum secs)]).
Proof.
  destruct (route_reports_lockout exampleStringToNumber exampleISOString
              exampleNativeMessage "token" (GET_locations (Some "accounts/1"))
              (Locations "accounts/1") 61000 locked_world)
    as (secs & h & Hb & Hrun & Hresp & _).
  - discriminate.
  - reflexivity.
  - reflexivity.
  - exists [("expiry", JNum 61000); ("setAt", JStr "1970-01-01T00:00:01.000Z")].
    repeat split.
  - reflexivity.
  - exists secs, h. repeat split; try assumption; apply Hb.
Defined.

Lemma route_reports_upstream_429_witness :
  exists h,
    fst (route exampleStringToNumber exampleISOString exampleNativeMessage
           (Some "token") GET_accounts (quota_world None)) = Ret h /\
    response h =
      mkHttp 429 (JObj [("error", JStr exceeded_message); ("retryAfter", JNum 60)]).
Proof.
  apply (route_reports_upstream_429 exampleStringToNumber exampleISOString
           exampleNativeMessage "token" GET_accounts Accounts None
           Undefined Undefined (quota_world None)).
  - discriminate.
  - reflexivity.
  - reflexivity.
  - reflexivity.
  - reflexivity.
  - reflexivity.
  - reflexivity.
Defined.

Lemma route_reports_upstream_error_witness :
  fst (route exampleStringToNumber exampleISOString exampleNativeMessage
         (Some "token") GET_accounts
         (answering (Reply 403 (Some (error_body (JStr "Forbidden")))))) =
  Ret (mkHandled (mkHttp 500 (JObj [("error", JStr "Forbidden")]))
                 ["Accounts fetch error: Forbidden"]).
Proof.
  apply (route_reports_upstream_error exampleStringToNumber exampleISOString
           exampleNativeMessage "token" GET_accounts Accounts 403
           (error_body (JStr "Forbidden"))
           (Val (JObj [("message", JStr "Forbidden")])) (Val (JStr "Forbidden"))
           (answering (Reply 403 (Some (error_body (JStr "Forbidden")))))).
  - discriminate.
  - reflexivity.
  - reflexivity.
  - reflexivity.
  - reflexivity.
  - discriminate.
  - lia.
  - reflexivity.
  - reflexivity.
Defined.

Lemma route_returns_payload_witness :
  fst (route exampleStringToNumber exampleISOString exampleNativeMessage
         (Some "token") GET_accounts warm_cache_world) =
  Ret (mkHandled (mkHttp 200 accounts_payload) []).
Proof.
  destruct (route_returns_payload exampleStringToNumber exampleISOString
              exampleNativeMessage "token" GET_accounts Accounts warm_cache_world)
    as (Hhit & _).
  - discriminate.
  - reflexivity.
  - rewrite (Hhit accounts_payload 5000).
    + reflexivity.
    + exists [("data", accounts_payload); ("expiry", JNum 5000)]. repeat split.
    + vm_compute. discriminate.
    + reflexivity.
Defined.

Lemma quota_answer_with_null_body_witness :
  fst (guardedFetch exampleStringToNumber exampleISOString accounts_url "token"
         (quota_world (Some JNull))) = Throw TypeError.
Proof.
  apply (quota_answer_with_null_body exampleStringToNumber exampleISOString
           exampleNativeMessage "token" GET_accounts Accounts (quota_world (Some JNull))).
  - discriminate.
  - reflexivity.
  - reflexivity.
  - reflexivity.
  - reflexivity.
  - reflexivity.
  - reflexivity.
Defined.

(** A key full of path separators ends up in the cache directory like any
    other. *)
Lemma cache_file_name_is_safe_witness :
  count_char "/" (getCacheFilePath "../../etc/passwd") =
  count_char "/" (path_join CACHE_DIR ".json").
Proof.
  apply (cache_file_name_is_safe "../../etc/passwd"). reflexivity.
Defined.

Lemma dismiss_cancels_retry_witness :
  Home.invoked
    (Home.ticks 200
       (Home.dismiss (Home.ticks 5 (Home.on429 reviews_page (Some 30) Home.initial)))) = [].
Proof.
  destruct (HomeFacts.dismiss_cancels_retry reviews_page 30 5 Home.initial)
    as (_ & _ & _ & _ & Hnever).
  - reflexivity.
  - reflexivity.
  - exact (Hnever 200%nat).
Defined.

Lemma retry_waits_out_the_lockout_witness :
  exists secs,
    ceil_div_1000 (Fin (61000 - 1000)) = Fin secs /\
    61000 <= 1000 + 1000 * Home.countdown (Home.on429 reviews_page (Some secs) Home.initial).
Proof.
  destruct (retry_waits_out_the_lockout reviews_page 61000 1000 Home.initial)
    as (secs & Hq & Hcover & _).
  - reflexivity.
  - reflexivity.
  - exists secs. split; [exact Hq | exact Hcover].
Defined.

Lemma distribution_counts_witness :
  Stats.count_at
    (Stats.ratingDistribution Stats.StarRating (fun s => s)
       [Stats.FIVE; Stats.THREE; Stats.FIVE]) 0 = 0.
Proof.
  apply (Stats.distribution_counts Stats.StarRating (fun s => s)
           [Stats.FIVE; Stats.THREE; Stats.FIVE] 0).
  lia.
Defined.
